(** * Gateway resilience layer: rate limiter and circuit breaker

    A shallow embedding of
      - backend/src/gateway/circuit_breaker.py
      - backend/src/gateway/rate_limiter.py
    together with the part of the Redis command set that the two modules
    call, and the properties of the specification settled against it.

    Modelling conventions.
      - Python [int] is [Z].  Python [float] is idealised as an exact
        rational ([Q]): no property below depends on rounding.
      - A [datetime] is its number of microseconds since the epoch ([Z]);
        [time.time()] is a number of seconds ([Q]).
      - Every clock reading ([datetime.utcnow()], [time.time()]) that
        influences the stored state or the returned value is an explicit
        argument of the function that performs it.
      - Methods are computations in a state-and-exception monad over the
        object ([self]); [try ... except Exception] is [try_except].
      - A Redis client call may raise: the client carries the list of
        outcomes of its next calls ([faults]).  The client decodes replies
        to [str] ([decode_responses=True], as everywhere in the
        repository); stored values are kept by what they parse to.
      - [EXPIRE] sets the time to live of a key.  Time passes on the store
        between two calls of the gateway, never during one: the step
        [Redis.elapse] counts the time to live down and removes the keys
        whose time has run out.  A sequence of calls written without that
        step is one during which no key expires.
      - asyncio locks are not modelled: every method runs to completion. *)

From Stdlib Require Import ZArith QArith Qround Qminmax Lqa Lia.
From stdpp Require Import base option list strings gmap pretty.

Local Open Scope Z_scope.

(** ** Exceptions and the state-and-exception monad *)

Inductive Exn : Type :=
| RedisError
| ValueError
| ZeroDivisionError
| IndexError
| CallError                                (* raised by the protected callable *)
| CircuitBreakerException (service_name : string) (retry_after : Z).


Inductive Result (A : Type) : Type :=
| Ok (a : A)
| Raise (e : Exn).
Arguments Ok {A} a.
Arguments Raise {A} e.

Definition M (S A : Type) : Type := S -> Result A * S.

Definition ret {S A} (a : A) : M S A := fun s => (Ok a, s).

Definition bind {S A B} (m : M S A) (k : A -> M S B) : M S B :=
  fun s => match m s with
           | (Ok a, s') => k a s'
           | (Raise e, s') => (Raise e, s')
           end.

Definition raise {S A} (e : Exn) : M S A := fun s => (Raise e, s).

Definition try_except {S A} (body : M S A) (handler : Exn -> M S A) : M S A :=
  fun s => match body s with
           | (Ok a, s') => (Ok a, s')
           | (Raise e, s') => handler e s'
           end.

Definition gets {S A} (f : S -> A) : M S A := fun s => (Ok (f s), s).
Definition modify {S} (f : S -> S) : M S unit := fun s => (Ok tt, f s).

Declare Scope monad_scope.
Delimit Scope monad_scope with monad.
Notation "x <- m ;; k" := (bind m (fun x => k))
  (at level 62, m at next level, right associativity) : monad_scope.
Notation "m ;;; k" := (bind m (fun _ => k))
  (at level 62, right associativity) : monad_scope.
Local Open Scope monad_scope.

Definition lift {S A} (r : Result A) : M S A := fun s => (r, s).

(** [outcome m Q E s]: run from [s], the computation [m] either returns a
    value, with [Q] of the value and the final state, or raises, with [E]
    of the exception and the final state. *)
Definition outcome {S A} (m : M S A) (Q : A -> S -> Prop) (E : Exn -> S -> Prop)
  (s : S) : Prop :=
  match m s with
  | (Ok a, s') => Q a s'
  | (Raise e, s') => E e s'
  end.

(** [returns m Q s]: run from [s], the computation [m] returns normally
    (it does not raise), with a value and a final state that satisfy [Q]. *)
Definition returns {S A} (m : M S A) (Q : A -> S -> Prop) (s : S) : Prop :=
  match m s with
  | (Ok a, s') => Q a s'
  | (Raise _, _) => False
  end.

(** [raises m Q s]: run from [s], the computation [m] raises an exception,
    with the exception and the final state satisfying [Q]. *)
Definition raises {S A} (m : M S A) (Q : Exn -> S -> Prop) (s : S) : Prop :=
  match m s with
  | (Ok _, _) => False
  | (Raise e, s') => Q e s'
  end.

(** The state in which [m] leaves the object, whatever its outcome. *)
Definition exec {S A} (m : M S A) (s : S) : S := snd (m s).

(** Python's [a / b] on numbers. *)
Definition py_div {S} (a b : Q) : M S Q :=
  if Qeq_bool b 0 then raise ZeroDivisionError else ret (a / b)%Q.

(** Python's [int(x)] on a float: truncation towards zero. *)
Definition py_int (q : Q) : Z :=
  if Qle_bool 0 q then Qfloor q else Qceiling q.

(** ** Logging (structlog) *)

Inductive Level : Type := DEBUG | INFO | WARNING | ERROR.

Record LogRecord : Type := mkLog {
  level : Level;
  event : string;
  subject : string
}.

(** ** The shared store: the Redis commands used by the gateway *)

Module Redis.

(** The value of a string key or of a hash field, by what it parses to. *)
Inductive Scalar : Type :=
| SInt (z : Z)
| SNum (q : Q)
| SText (s : string)
| STime (t : Z).

Inductive Value : Type :=
| VString (s : Scalar)
| VZSet (z : list (Q * Q))            (* (member, score), by increasing score *)
| VHash (h : gmap string Scalar).

Record Entry : Type := mkEntry {
  value : Value;
  ttl : option Z                       (* seconds left to live, set by EXPIRE *)
}.

(** What happens to the next client call: the reply arrives; the command
    is applied but the reply is lost (a timeout); the command never
    reaches the server. *)
Inductive Fault : Type := Reply | Lost | Refused.

Record Client : Type := mkClient {
  data : gmap string Entry;
  faults : list Fault;
  raised : nat                         (* how many calls have raised so far *)
}.

Definition Command (A : Type) : Type :=
  gmap string Entry -> Result A * gmap string Entry.

(** The reply of the server reaches the caller: an error reply raises. *)
Definition deliver {A} (r : Result A) (d : gmap string Entry) (fs : list Fault)
  (n : nat) : Result A * Client :=
  match r with
  | Ok a => (Ok a, mkClient d fs n)
  | Raise e => (Raise e, mkClient d fs (S n))
  end.

(** One round trip to the server. *)
Definition call {A} (cmd : Command A) : M Client A :=
  fun c =>
    match faults c with
    | [] => deliver (fst (cmd (data c))) (snd (cmd (data c))) [] (raised c)
    | Reply :: fs => deliver (fst (cmd (data c))) (snd (cmd (data c))) fs (raised c)
    | Lost :: fs => (Raise RedisError, mkClient (snd (cmd (data c))) fs (S (raised c)))
    | Refused :: fs => (Raise RedisError, mkClient (data c) fs (S (raised c)))
    end.

(** A client of a store that holds [d] and answers every call. *)
Definition healthy (d : gmap string Entry) : Client := mkClient d [] 0.

(** HGETALL: the fields of a hash, the empty dict for a missing key. *)
Definition hgetall (key : string) : Command (gmap string Scalar) :=
  fun d => match d !! key with
           | None => (Ok ∅, d)
           | Some (mkEntry (VHash h) _) => (Ok h, d)
           | Some _ => (Raise RedisError, d)
           end.

(** HSET key field value [field value ...]: the given fields are written,
    the other fields of the hash stay as they are. *)
Definition hset (key : string) (mapping : gmap string Scalar) : Command unit :=
  fun d => match d !! key with
           | None => (Ok tt, <[key := mkEntry (VHash mapping) None]> d)
           | Some (mkEntry (VHash h) t) =>
               (Ok tt, <[key := mkEntry (VHash (mapping ∪ h)) t]> d)
           | Some _ => (Raise RedisError, d)
           end.

(** EXPIRE key seconds. *)
Definition expire (key : string) (seconds : Z) : Command unit :=
  fun d => match d !! key with
           | None => (Ok tt, d)
           | Some e => (Ok tt, <[key := mkEntry (value e) (Some seconds)]> d)
           end.

(** The passing of [seconds] seconds on the server: a key whose time to
    live has run out is removed, the others have that much less to live. *)
Definition elapse (seconds : Z) (d : gmap string Entry) : gmap string Entry :=
  omap (fun e => match ttl e with
                 | None => Some e
                 | Some t => if t <=? seconds then None
                             else Some (mkEntry (value e) (Some (t - seconds)))
                 end) d.

(** The client [seconds] seconds later. *)
Definition later (seconds : Z) (c : Client) : Client :=
  mkClient (elapse seconds (data c)) (faults c) (raised c).

(** GET key. *)
Definition get (key : string) : Command (option Scalar) :=
  fun d => match d !! key with
           | None => (Ok None, d)
           | Some (mkEntry (VString s) _) => (Ok (Some s), d)
           | Some _ => (Raise RedisError, d)
           end.

(** INCR key. *)
Definition incr (key : string) : Command Z :=
  fun d => match d !! key with
           | None => (Ok 1, <[key := mkEntry (VString (SInt 1)) None]> d)
           | Some (mkEntry (VString (SInt n)) t) =>
               (Ok (n + 1), <[key := mkEntry (VString (SInt (n + 1))) t]> d)
           | Some _ => (Raise RedisError, d)
           end.

(** A pipeline of two commands, sent and executed as one transaction:
    both are applied, and the first error is raised by [execute]. *)
Definition pipeline {A B} (c1 : Command A) (c2 : Command B) : Command (A * B) :=
  fun d =>
    let '(r1, d1) := c1 d in
    let '(r2, d2) := c2 d1 in
    match r1, r2 with
    | Ok a, Ok b => (Ok (a, b), d2)
    | Raise e, _ => (Raise e, d2)
    | _, Raise e => (Raise e, d2)
    end.

Definition put_zset (key : string) (t : option Z) (z : list (Q * Q))
  (d : gmap string Entry) : gmap string Entry :=
  match z with
  | [] => delete key d                  (* an empty sorted set is removed *)
  | _ => <[key := mkEntry (VZSet z) t]> d
  end.

(** ZREMRANGEBYSCORE key -inf max: removes the members with score <= max. *)
Definition zremrangebyscore_upto (key : string) (max : Q) : Command Z :=
  fun d => match d !! key with
           | None => (Ok 0, d)
           | Some (mkEntry (VZSet z) t) =>
               let keep := List.filter (fun ms => negb (Qle_bool (snd ms) max)) z in
               (Ok (Z.of_nat (length z) - Z.of_nat (length keep)),
                put_zset key t keep d)
           | Some _ => (Raise RedisError, d)
           end.

(** ZCARD key. *)
Definition zcard (key : string) : Command Z :=
  fun d => match d !! key with
           | None => (Ok 0, d)
           | Some (mkEntry (VZSet z) _) => (Ok (Z.of_nat (length z)), d)
           | Some _ => (Raise RedisError, d)
           end.

(** ZRANGE key 0 0 WITHSCORES: the member of lowest score, if any. *)
Definition zrange_first (key : string) : Command (list (Q * Q)) :=
  fun d => match d !! key with
           | None => (Ok [], d)
           | Some (mkEntry (VZSet z) _) => (Ok (take 1 z), d)
           | Some _ => (Raise RedisError, d)
           end.

Fixpoint zinsert (member score : Q) (z : list (Q * Q)) : list (Q * Q) :=
  match z with
  | [] => [(member, score)]
  | ms :: z' =>
      if Qle_bool (snd ms) score then ms :: zinsert member score z'
      else (member, score) :: z
  end.

(** ZADD key score member: a member already present only gets the new
    score; the members are the timestamps themselves, compared as
    numbers. *)
Definition zadd (key : string) (member score : Q) : Command Z :=
  fun d =>
    let add z t :=
      let others := List.filter (fun ms => negb (Qeq_bool (fst ms) member)) z in
      (Ok (Z.of_nat (S (length others)) - Z.of_nat (length z)),
       <[key := mkEntry (VZSet (zinsert member score others)) t]> d) in
    match d !! key with
    | None => add [] None
    | Some (mkEntry (VZSet z) t) => add z t
    | Some _ => (Raise RedisError, d)
    end.

(** DEL key [key ...]. *)
Definition del (keys : list string) : Command Z :=
  fun d => (Ok (Z.of_nat (length (List.filter (fun k => bool_decide (is_Some (d !! k))) keys))),
            foldr delete d keys).

(** SCAN with MATCH, iterated to the end: the keys accepted by the glob
    pattern.  The matcher is the store's, and is a parameter here. *)
Definition scan (accepts : string -> bool) : Command (list string) :=
  fun d => (Ok (List.filter accepts (map fst (map_to_list d))), d).

(** How a number stored by (or given to) a script reads back:
    Lua's [tonumber], [nil] for what is not a number. *)
Definition tonumber (v : option Scalar) : option Q :=
  match v with
  | Some (SInt z) => Some (inject_Z z)
  | Some (SNum q) => Some q
  | _ => None
  end.

(** A Lua number in a script's reply is converted to an integer. *)
Definition reply_integer (q : Q) : Z := py_int q.

(** PING *)
Definition ping : Command unit := fun d => (Ok tt, d).

(** HMGET key field [field ...]: the value of each field, [None] for a
    field or a key that is missing. *)
Definition hmget (key : string) (fields : list string) : Command (list (option Scalar)) :=
  fun d => match d !! key with
           | None => (Ok (map (fun _ => None) fields), d)
           | Some (mkEntry (VHash h) _) => (Ok (map (fun f => h !! f) fields), d)
           | Some _ => (Raise RedisError, d)
           end.

End Redis.

(** ** circuit_breaker.py *)

Module circuit_breaker.

Inductive CircuitState : Type := CLOSED | OPEN | HALF_OPEN.

(** [CircuitState.value] and the enum's constructor [CircuitState(s)]. *)
Definition CircuitState_value (s : CircuitState) : string :=
  match s with
  | CLOSED => "closed"
  | OPEN => "open"
  | HALF_OPEN => "half_open"
  end.

Definition CircuitState_of_value (s : string) : Result CircuitState :=
  if String.eqb s "closed" then Ok CLOSED
  else if String.eqb s "open" then Ok OPEN
  else if String.eqb s "half_open" then Ok HALF_OPEN
  else Raise ValueError.

Record CircuitBreakerConfig : Type := mkConfig {
  failure_threshold : Z;
  success_threshold : Z;
  timeout : Z;
  slow_call_duration_threshold : Q;
  slow_call_rate_threshold : Q;
  minimum_number_of_calls : Z;
  sliding_window_size : Z;
  max_wait_duration_in_half_open : Z
}.

(** The pydantic field constraints ([ge], [le]) of [CircuitBreakerConfig],
    checked when the model is constructed. *)
Definition CircuitBreakerConfig_valid (c : CircuitBreakerConfig) : bool :=
  (1 <=? failure_threshold c) &&
  (1 <=? success_threshold c) &&
  (1 <=? timeout c) &&
  Qle_bool (1 # 10) (slow_call_duration_threshold c) &&
  Qle_bool (1 # 10) (slow_call_rate_threshold c) &&
  Qle_bool (slow_call_rate_threshold c) 1 &&
  (1 <=? minimum_number_of_calls c) &&
  (10 <=? sliding_window_size c) &&
  (1 <=? max_wait_duration_in_half_open c).



Record CircuitBreakerStats : Type := mkStats {
  state : CircuitState;
  failure_count : Z;
  success_count : Z;
  last_failure_time : option Z;
  last_success_time : option Z;
  total_requests : Z;
  failed_requests : Z;
  slow_requests : Z;
  average_response_time : Q;
  next_attempt_time : option Z
}.

(** [CircuitBreakerStats(state=s)]: every other field at its default. *)
Definition CircuitBreakerStats_new (s : CircuitState) : CircuitBreakerStats :=
  mkStats s 0 0 None None 0 0 0 0%Q None.


Definition set_state (v : CircuitState) (s : CircuitBreakerStats) :=
  mkStats v (failure_count s) (success_count s) (last_failure_time s)
    (last_success_time s) (total_requests s) (failed_requests s)
    (slow_requests s) (average_response_time s) (next_attempt_time s).
Definition set_failure_count (v : Z) (s : CircuitBreakerStats) :=
  mkStats (state s) v (success_count s) (last_failure_time s)
    (last_success_time s) (total_requests s) (failed_requests s)
    (slow_requests s) (average_response_time s) (next_attempt_time s).
Definition set_success_count (v : Z) (s : CircuitBreakerStats) :=
  mkStats (state s) (failure_count s) v (last_failure_time s)
    (last_success_time s) (total_requests s) (failed_requests s)
    (slow_requests s) (average_response_time s) (next_attempt_time s).
Definition set_last_failure_time (v : option Z) (s : CircuitBreakerStats) :=
  mkStats (state s) (failure_count s) (success_count s) v
    (last_success_time s) (total_requests s) (failed_requests s)
    (slow_requests s) (average_response_time s) (next_attempt_time s).
Definition set_last_success_time (v : option Z) (s : CircuitBreakerStats) :=
  mkStats (state s) (failure_count s) (success_count s) (last_failure_time s)
    v (total_requests s) (failed_requests s)
    (slow_requests s) (average_response_time s) (next_attempt_time s).
Definition set_total_requests (v : Z) (s : CircuitBreakerStats) :=
  mkStats (state s) (failure_count s) (success_count s) (last_failure_time s)
    (last_success_time s) v (failed_requests s)
    (slow_requests s) (average_response_time s) (next_attempt_time s).
Definition set_failed_requests (v : Z) (s : CircuitBreakerStats) :=
  mkStats (state s) (failure_count s) (success_count s) (last_failure_time s)
    (last_success_time s) (total_requests s) v
    (slow_requests s) (average_response_time s) (next_attempt_time s).
Definition set_slow_requests (v : Z) (s : CircuitBreakerStats) :=
  mkStats (state s) (failure_count s) (success_count s) (last_failure_time s)
    (last_success_time s) (total_requests s) (failed_requests s)
    v (average_response_time s) (next_attempt_time s).
Definition set_average_response_time (v : Q) (s : CircuitBreakerStats) :=
  mkStats (state s) (failure_count s) (success_count s) (last_failure_time s)
    (last_success_time s) (total_requests s) (failed_requests s)
    (slow_requests s) v (next_attempt_time s).
Definition set_next_attempt_time (v : option Z) (s : CircuitBreakerStats) :=
  mkStats (state s) (failure_count s) (success_count s) (last_failure_time s)
    (last_success_time s) (total_requests s) (failed_requests s)
    (slow_requests s) (average_response_time s) v.

(** A [CircuitBreakerStats] object is mutable and may be referenced both by
    a local variable and by [self._circuits]: objects live in a store and
    are designated by their location. *)
Definition loc : Type := nat.

Record CircuitBreaker : Type := mkCB {
  redis_client : option Redis.Client;
  _circuits : gmap string loc;
  objects : gmap loc CircuitBreakerStats;
  logs : list LogRecord
}.

(** [CircuitBreaker(redis_client)] *)
Definition CircuitBreaker_new (redis_client : option Redis.Client) : CircuitBreaker :=
  mkCB redis_client ∅ ∅ [].

Definition default_config : CircuitBreakerConfig :=
  mkConfig 5 3 60 5%Q (8 # 10) 10 100 30.

Definition default_configs : gmap string CircuitBreakerConfig :=
  list_to_map
    [ ("trading", mkConfig 3 3 30 2%Q (8 # 10) 10 100 30);
      ("risk", mkConfig 5 3 60 5%Q (8 # 10) 10 100 30);
      ("compliance", mkConfig 10 3 120 10%Q (8 # 10) 10 100 30);
      ("iot", mkConfig 8 3 45 3%Q (8 # 10) 10 100 30);
      ("default", default_config) ].

(** [self.default_configs.get(service_name, self.default_configs["default"])] *)
Definition config_for (service_name : string) : CircuitBreakerConfig :=
  default default_config (default_configs !! service_name).

Definition timedelta_seconds (s : Z) : Z := s * 1000000.

Definition log (l : Level) (ev subj : string) : M CircuitBreaker unit :=
  modify (fun cb =>
    mkCB (redis_client cb) (_circuits cb) (objects cb) (logs cb ++ [mkLog l ev subj])).

(** Object creation and in-place attribute writes. *)
Definition new_object (s : CircuitBreakerStats) : M CircuitBreaker loc :=
  fun cb =>
    let l := fresh (dom (objects cb)) in
    (Ok l, mkCB (redis_client cb) (_circuits cb) (<[l := s]> (objects cb)) (logs cb)).

(** A location always designates an object (locations only come from
    [new_object]); [read] is made total by a default that is never used. *)
Definition read (l : loc) : M CircuitBreaker CircuitBreakerStats :=
  gets (fun cb => default (CircuitBreakerStats_new CLOSED) (objects cb !! l)).

Definition write (l : loc) (f : CircuitBreakerStats -> CircuitBreakerStats)
  : M CircuitBreaker unit :=
  modify (fun cb =>
    mkCB (redis_client cb) (_circuits cb) (alter f l (objects cb)) (logs cb)).

(** [self._circuits[service_name] = stats] *)
Definition set_circuit (service_name : string) (stats : loc) : M CircuitBreaker unit :=
  modify (fun cb =>
    mkCB (redis_client cb) (<[service_name := stats]> (_circuits cb)) (objects cb) (logs cb)).

(** One call of [self.redis_client]. *)
Definition redis {A} (cmd : Redis.Command A) : M CircuitBreaker A :=
  fun cb =>
    match redis_client cb with
    | Some c =>
        let '(r, c') := Redis.call cmd c in
        (r, mkCB (Some c') (_circuits cb) (objects cb) (logs cb))
    | None => (Raise RedisError, cb)
    end.

Definition key_of (service_name : string) : string :=
  "circuit_breaker:" +:+ service_name.

(** Reading the fields of the persisted hash:
    [int(data.get(f, 0))], [float(data.get(f, 0.0))],
    [datetime.fromisoformat(data[f]) if data.get(f) else None],
    [CircuitState(data.get("state", CircuitState.CLOSED))]. *)
Definition field_int (data : gmap string Redis.Scalar) (f : string) : Result Z :=
  match data !! f with
  | None => Ok 0
  | Some (Redis.SInt z) => Ok z
  | Some _ => Raise ValueError
  end.

Definition field_float (data : gmap string Redis.Scalar) (f : string) : Result Q :=
  match data !! f with
  | None => Ok 0%Q
  | Some (Redis.SInt z) => Ok (inject_Z z)
  | Some (Redis.SNum q) => Ok q
  | Some _ => Raise ValueError
  end.

Definition field_datetime (data : gmap string Redis.Scalar) (f : string)
  : Result (option Z) :=
  match data !! f with
  | None => Ok None
  | Some (Redis.STime t) => Ok (Some t)
  | Some (Redis.SText s) => if String.eqb s "" then Ok None else Raise ValueError
  | Some _ => Raise ValueError
  end.

Definition field_state (data : gmap string Redis.Scalar) : Result CircuitState :=
  match data !! "state" with
  | None => Ok CLOSED
  | Some (Redis.SText s) => CircuitState_of_value s
  | Some _ => Raise ValueError
  end.

Definition stats_of_hash (data : gmap string Redis.Scalar)
  : M CircuitBreaker CircuitBreakerStats :=
  st <- lift (field_state data) ;;
  fc <- lift (field_int data "failure_count") ;;
  sc <- lift (field_int data "success_count") ;;
  lf <- lift (field_datetime data "last_failure_time") ;;
  ls <- lift (field_datetime data "last_success_time") ;;
  tr <- lift (field_int data "total_requests") ;;
  fr <- lift (field_int data "failed_requests") ;;
  sr <- lift (field_int data "slow_requests") ;;
  av <- lift (field_float data "average_response_time") ;;
  na <- lift (field_datetime data "next_attempt_time") ;;
  ret (mkStats st fc sc lf ls tr fr sr av na).

(** The [data] dict of [_save_circuit_stats]: the three time fields are
    written only when they are set. *)
Definition optional_field (f : string) (v : option Z) : gmap string Redis.Scalar :=
  match v with
  | Some t => {[ f := Redis.STime t ]}
  | None => ∅
  end.

Definition hash_of_stats (s : CircuitBreakerStats) : gmap string Redis.Scalar :=
  optional_field "next_attempt_time" (next_attempt_time s) ∪
  (optional_field "last_success_time" (last_success_time s) ∪
  (optional_field "last_failure_time" (last_failure_time s) ∪
   list_to_map
     [ ("state", Redis.SText (CircuitState_value (state s)));
       ("failure_count", Redis.SInt (failure_count s));
       ("success_count", Redis.SInt (success_count s));
       ("total_requests", Redis.SInt (total_requests s));
       ("failed_requests", Redis.SInt (failed_requests s));
       ("slow_requests", Redis.SInt (slow_requests s));
       ("average_response_time", Redis.SNum (average_response_time s)) ])).

(** [_get_circuit_stats]: the stats object to work on, a new one built
    from the persisted hash when there is one, else the cached one. *)
Definition _get_circuit_stats (service_name : string) : M CircuitBreaker loc :=
  found <- try_except
    (client <- gets redis_client ;;
     match client with
     | Some _ =>
         data <- redis (Redis.hgetall (key_of service_name)) ;;
         if decide (dom data = ∅) then ret None
         else
           s <- stats_of_hash data ;;
           l <- new_object s ;;
           ret (Some l)
     | None => ret None
     end)
    (fun e =>
       log WARNING "Failed to get circuit stats from Redis" service_name ;;;
       ret None) ;;
  match found with
  | Some l => ret l
  | None =>
      circuits <- gets _circuits ;;
      match circuits !! service_name with
      | Some l => ret l
      | None =>
          l <- new_object (CircuitBreakerStats_new CLOSED) ;;
          set_circuit service_name l ;;;
          ret l
      end
  end.

(** [_save_circuit_stats] *)
Definition _save_circuit_stats (service_name : string) (stats : loc)
  : M CircuitBreaker unit :=
  set_circuit service_name stats ;;;
  try_except
    (client <- gets redis_client ;;
     match client with
     | Some _ =>
         s <- read stats ;;
         redis (Redis.hset (key_of service_name) (hash_of_stats s)) ;;;
         redis (Redis.expire (key_of service_name) 86400)
     | None => ret tt
     end)
    (fun e => log WARNING "Failed to save circuit stats to Redis" service_name).

(** [_send_circuit_alert]: the alert is a log record. *)
Definition _send_circuit_alert (service_name ev : string) (stats : loc)
  : M CircuitBreaker unit :=
  log INFO "Circuit breaker alert" service_name.

(** [_transition_to_open]; [now] is the reading of [datetime.utcnow()]
    made by the transition. *)
Definition _transition_to_open (service_name : string) (stats : loc)
  (config : CircuitBreakerConfig) (now : Z) : M CircuitBreaker unit :=
  write stats (set_state OPEN) ;;;
  write stats (set_next_attempt_time (Some (now + timedelta_seconds (timeout config)))) ;;;
  log WARNING "Circuit breaker opened" service_name ;;;
  _send_circuit_alert service_name "OPENED" stats.

(** [_transition_to_half_open] *)
Definition _transition_to_half_open (service_name : string) (stats : loc)
  (config : CircuitBreakerConfig) : M CircuitBreaker unit :=
  write stats (set_state HALF_OPEN) ;;;
  write stats (set_success_count 0) ;;;
  write stats (set_failure_count 0) ;;;
  write stats (set_next_attempt_time None) ;;;
  log INFO "Circuit breaker half-opened" service_name ;;;
  _send_circuit_alert service_name "HALF_OPENED" stats.

(** [_transition_to_closed] *)
Definition _transition_to_closed (service_name : string) (stats : loc)
  (config : CircuitBreakerConfig) : M CircuitBreaker unit :=
  write stats (set_state CLOSED) ;;;
  write stats (set_success_count 0) ;;;
  write stats (set_failure_count 0) ;;;
  write stats (set_next_attempt_time None) ;;;
  log INFO "Circuit breaker closed" service_name ;;;
  _send_circuit_alert service_name "CLOSED" stats.

Definition reduction_factor : Q := 8 # 10.

(** [_apply_sliding_window]: the three request counters are scaled by 0.8
    and truncated. *)
Definition _apply_sliding_window (service_name : string) (stats : loc)
  (config : CircuitBreakerConfig) : M CircuitBreaker unit :=
  write stats (fun s =>
    set_total_requests (py_int (inject_Z (total_requests s) * reduction_factor)) s) ;;;
  write stats (fun s =>
    set_failed_requests (py_int (inject_Z (failed_requests s) * reduction_factor)) s) ;;;
  write stats (fun s =>
    set_slow_requests (py_int (inject_Z (slow_requests s) * reduction_factor)) s) ;;;
  log DEBUG "Applied sliding window reduction" service_name.

(** The running average of the response time, shared by both recorders. *)
Definition update_average (stats : loc) (response_time : Q) : M CircuitBreaker unit :=
  s <- read stats ;;
  if total_requests s =? 1 then
    write stats (set_average_response_time response_time)
  else
    avg <- py_div
      (average_response_time s * inject_Z (total_requests s - 1) + response_time)
      (inject_Z (total_requests s)) ;;
    write stats (set_average_response_time avg).

(** [_record_success]; [now] is the reading of [datetime.utcnow()] at entry. *)
Definition _record_success (service_name : string) (stats : loc)
  (config : CircuitBreakerConfig) (response_time : Q) (now : Z)
  : M CircuitBreaker unit :=
  write stats (fun s => set_success_count (success_count s + 1) s) ;;;
  write stats (fun s => set_total_requests (total_requests s + 1) s) ;;;
  write stats (set_last_success_time (Some now)) ;;;
  update_average stats response_time ;;;
  (if Qle_bool response_time (slow_call_duration_threshold config) then ret tt
   else write stats (fun s => set_slow_requests (slow_requests s + 1) s)) ;;;
  s <- read stats ;;
  (match state s with
   | HALF_OPEN =>
       if success_threshold config <=? success_count s
       then _transition_to_closed service_name stats config
       else ret tt
   | _ => ret tt
   end) ;;;
  s <- read stats ;;
  (if sliding_window_size config <? total_requests s
   then _apply_sliding_window service_name stats config
   else ret tt) ;;;
  _save_circuit_stats service_name stats ;;;
  log DEBUG "Circuit breaker success recorded" service_name.

(** [_record_failure]; [now] is the reading of [datetime.utcnow()] at
    entry, [now_open] the one made by [_transition_to_open]. *)
Definition _record_failure (service_name : string) (stats : loc)
  (config : CircuitBreakerConfig) (response_time : Q) (now now_open : Z)
  : M CircuitBreaker unit :=
  write stats (fun s => set_failure_count (failure_count s + 1) s) ;;;
  write stats (fun s => set_total_requests (total_requests s + 1) s) ;;;
  write stats (fun s => set_failed_requests (failed_requests s + 1) s) ;;;
  write stats (set_last_failure_time (Some now)) ;;;
  update_average stats response_time ;;;
  s <- read stats ;;
  (match state s with
   | CLOSED =>
       if failure_threshold config <=? failure_count s
       then _transition_to_open service_name stats config now_open
       else ret tt
   | HALF_OPEN => _transition_to_open service_name stats config now_open
   | OPEN => ret tt
   end) ;;;
  s <- read stats ;;
  (if sliding_window_size config <? total_requests s
   then _apply_sliding_window service_name stats config
   else ret tt) ;;;
  _save_circuit_stats service_name stats ;;;
  log WARNING "Circuit breaker failure recorded" service_name.

(** [_can_proceed_async]; [now] is the reading of [datetime.utcnow()] at
    entry, [now_open] the one made by [_transition_to_open]. *)
Definition _can_proceed_async (service_name : string) (stats : loc)
  (config : CircuitBreakerConfig) (now now_open : Z) : M CircuitBreaker bool :=
  s <- read stats ;;
  match state s with
  | CLOSED =>
      if minimum_number_of_calls config <=? total_requests s then
        failure_rate <- py_div (inject_Z (failed_requests s)) (inject_Z (total_requests s)) ;;
        slow_rate <- py_div (inject_Z (slow_requests s)) (inject_Z (total_requests s)) ;;
        if Qle_bool (5 # 10) failure_rate
           || Qle_bool (slow_call_rate_threshold config) slow_rate
        then
          _transition_to_open service_name stats config now_open ;;;
          ret false
        else ret true
      else ret true
  | OPEN =>
      match next_attempt_time s with
      | Some t =>
          if t <=? now then
            _transition_to_half_open service_name stats config ;;;
            ret true
          else ret false
      | None => ret false
      end
  | HALF_OPEN => ret (success_count s <? success_threshold config)
  end.

(** [can_proceed], the synchronous check; [now] is its reading of
    [datetime.utcnow()]. *)
Definition can_proceed (service_name : string) (config : option CircuitBreakerConfig)
  (now : Z) : M CircuitBreaker bool :=
  let config := default (config_for service_name) config in
  circuits <- gets _circuits ;;
  match circuits !! service_name with
  | None => ret true
  | Some stats =>
      s <- read stats ;;
      match state s with
      | CLOSED => ret true
      | OPEN =>
          match next_attempt_time s with
          | Some t => if t <=? now then ret true else ret false
          | None => ret false
          end
      | HALF_OPEN => ret (success_count s <? success_threshold config)
      end
  end.

(** What the protected callable does, and the time it takes. *)
Inductive Outcome : Type :=
| Returns (response_time : Q)
| Fails (response_time : Q).

(** The readings of [datetime.utcnow()] made during one
    [call_with_circuit_breaker]. *)
Record Readings : Type := mkReadings {
  at_check : Z;          (* in [_can_proceed_async] *)
  at_open : Z;           (* in a [_transition_to_open] of the check *)
  at_retry : Z;          (* for [retry_after] *)
  at_record : Z;         (* in [_record_success] / [_record_failure] *)
  at_reopen : Z;         (* in a [_transition_to_open] of [_record_failure] *)
  at_except : Z;         (* in [_record_failure] when [_record_success] raised *)
  elapsed_at_except : Q  (* the response time measured by that handler *)
}.

(** [call_with_circuit_breaker] *)
Definition call_with_circuit_breaker (service_name : string) (func : Outcome)
  (config : option CircuitBreakerConfig) (t : Readings) : M CircuitBreaker unit :=
  let config := default (config_for service_name) config in
  stats <- _get_circuit_stats service_name ;;
  ok <- _can_proceed_async service_name stats config (at_check t) (at_open t) ;;
  if negb ok then
    s <- read stats ;;
    let retry_after :=
      match next_attempt_time s with
      | Some nt => Z.quot (nt - at_retry t) 1000000
      | None => timeout config
      end in
    raise (CircuitBreakerException service_name retry_after)
  else
    match func with
    | Returns response_time =>
        (* the recording of the success is inside the [try] block *)
        try_except
          (_record_success service_name stats config response_time (at_record t))
          (fun e =>
             _record_failure service_name stats config (elapsed_at_except t)
               (at_except t) (at_reopen t) ;;;
             raise e)
    | Fails response_time =>
        _record_failure service_name stats config response_time
          (at_record t) (at_reopen t) ;;;
        raise CallError
    end.

(** [record_success], [record_failure]: the public recorders. *)
Definition record_success (service_name : string) (now : Z) : M CircuitBreaker unit :=
  let config := config_for service_name in
  stats <- _get_circuit_stats service_name ;;
  _record_success service_name stats config 0%Q now.

Definition record_failure (service_name : string) (now now_open : Z)
  : M CircuitBreaker unit :=
  let config := config_for service_name in
  stats <- _get_circuit_stats service_name ;;
  _record_failure service_name stats config 0%Q now now_open.

(** [get_circuit_stats] *)
Definition get_circuit_stats (service_name : string)
  : M CircuitBreaker (option CircuitBreakerStats) :=
  circuits <- gets _circuits ;;
  match circuits !! service_name with
  | Some l => s <- read l ;; ret (Some s)
  | None => ret None
  end.

(** [reset_circuit] *)
Definition reset_circuit (service_name : string) : M CircuitBreaker unit :=
  stats <- new_object (CircuitBreakerStats_new CLOSED) ;;
  _save_circuit_stats service_name stats ;;;
  log INFO "Circuit breaker reset" service_name.

(** *** The effect of each method on the stats object it is given *)

Definition opened (config : CircuitBreakerConfig) (now : Z) (s : CircuitBreakerStats) :=
  set_next_attempt_time (Some (now + timedelta_seconds (timeout config)))
    (set_state OPEN s).

Definition half_opened (s : CircuitBreakerStats) :=
  set_next_attempt_time None
    (set_failure_count 0 (set_success_count 0 (set_state HALF_OPEN s))).

Definition closed (s : CircuitBreakerStats) :=
  set_next_attempt_time None
    (set_failure_count 0 (set_success_count 0 (set_state CLOSED s))).

Definition scaled (n : Z) : Z := py_int (inject_Z n * reduction_factor).

Definition decayed (config : CircuitBreakerConfig) (s : CircuitBreakerStats) :=
  if sliding_window_size config <? total_requests s then
    set_slow_requests (scaled (slow_requests s))
      (set_failed_requests (scaled (failed_requests s))
         (set_total_requests (scaled (total_requests s)) s))
  else s.

Definition averaged (response_time : Q) (s : CircuitBreakerStats) :=
  if total_requests s =? 1 then set_average_response_time response_time s
  else set_average_response_time
         ((average_response_time s * inject_Z (total_requests s - 1) + response_time)
          / inject_Z (total_requests s))%Q s.

Definition success_recorded (config : CircuitBreakerConfig) (response_time : Q)
  (now : Z) (s : CircuitBreakerStats) : CircuitBreakerStats :=
  let s := set_success_count (success_count s + 1) s in
  let s := set_total_requests (total_requests s + 1) s in
  let s := set_last_success_time (Some now) s in
  let s := averaged response_time s in
  let s := if Qle_bool response_time (slow_call_duration_threshold config) then s
           else set_slow_requests (slow_requests s + 1) s in
  let s := match state s with
           | HALF_OPEN => if success_threshold config <=? success_count s
                          then closed s else s
           | _ => s
           end in
  decayed config s.

Definition failure_recorded (config : CircuitBreakerConfig) (response_time : Q)
  (now now_open : Z) (s : CircuitBreakerStats) : CircuitBreakerStats :=
  let s := set_failure_count (failure_count s + 1) s in
  let s := set_total_requests (total_requests s + 1) s in
  let s := set_failed_requests (failed_requests s + 1) s in
  let s := set_last_failure_time (Some now) s in
  let s := averaged response_time s in
  let s := match state s with
           | CLOSED => if failure_threshold config <=? failure_count s
                       then opened config now_open s else s
           | HALF_OPEN => opened config now_open s
           | OPEN => s
           end in
  decayed config s.

(** The effect of [_can_proceed_async] on the stats object, and its answer. *)
Definition checked (config : CircuitBreakerConfig) (now now_open : Z)
  (s : CircuitBreakerStats) : bool * CircuitBreakerStats :=
  match state s with
  | CLOSED =>
      if (minimum_number_of_calls config <=? total_requests s)
         && (Qle_bool (5 # 10) (inject_Z (failed_requests s) / inject_Z (total_requests s))
             || Qle_bool (slow_call_rate_threshold config)
                  (inject_Z (slow_requests s) / inject_Z (total_requests s)))
      then (false, opened config now_open s)
      else (true, s)
  | OPEN =>
      match next_attempt_time s with
      | Some t => if t <=? now then (true, half_opened s) else (false, s)
      | None => (false, s)
      end
  | HALF_OPEN => (success_count s <? success_threshold config, s)
  end.

(** [saved service_name l cb cb']: [cb'] is [cb] after a save of the object
    at [l] for [service_name]: the objects are the same, the cache
    designates [l] (the store and the log may differ). *)
Definition saved (service_name : string) (l : loc) (cb cb' : CircuitBreaker) : Prop :=
  objects cb' = objects cb /\ _circuits cb' = <[service_name := l]> (_circuits cb).

(** [at_object l cb0 st cb]: [cb] is [cb0] where the object at [l] has
    become [st], up to the log. *)
Definition at_object (l : loc) (cb0 : CircuitBreaker) (st : CircuitBreakerStats)
  (cb : CircuitBreaker) : Prop :=
  objects cb = <[l := st]> (objects cb0) /\
  _circuits cb = _circuits cb0 /\
  redis_client cb = redis_client cb0.

(** What a recorder leaves behind: the object at [l] has become [st'] and
    is the one cached for the service. *)
Definition recorded_at (service_name : string) (l : loc) (cb0 : CircuitBreaker)
  (st' : CircuitBreakerStats) (cb' : CircuitBreaker) : Prop :=
  objects cb' = <[l := st']> (objects cb0) /\
  _circuits cb' = <[service_name := l]> (_circuits cb0).

(** The stats object at a location, and the one cached for a service. *)
Definition object_at (l : loc) (cb : CircuitBreaker) : option CircuitBreakerStats :=
  objects cb !! l.

Definition cached (service_name : string) (cb : CircuitBreaker)
  : option CircuitBreakerStats :=
  l ← _circuits cb !! service_name; objects cb !! l.

(** The stats that the next operation on [service_name] will work on: what
    [_get_circuit_stats] returns. *)
Definition current (service_name : string) (cb : CircuitBreaker)
  : option CircuitBreakerStats :=
  match _get_circuit_stats service_name cb with
  | (Ok l, cb') => objects cb' !! l
  | (Raise _, _) => None
  end.

(** The fields of the hash persisted for [service_name]. *)
Definition persisted (service_name : string) (cb : CircuitBreaker)
  : option (gmap string Redis.Scalar) :=
  c ← redis_client cb;
  e ← Redis.data c !! key_of service_name;
  match Redis.value e with
  | Redis.VHash h => Some h
  | _ => None
  end.

(** A breaker backed by a store that answers every call, after the three
    failures that open the circuit of the "trading" service at time 0. *)
Definition trading_opened : CircuitBreaker :=
  exec (record_failure "trading" 0 0)
    (exec (record_failure "trading" 0 0)
       (exec (record_failure "trading" 0 0)
          (CircuitBreaker_new (Some (Redis.healthy ∅))))).

(** A completed call, as the recorders see it. *)
Inductive Call : Type :=
| Success (response_time : Q) (now : Z)
| Failure (response_time : Q) (now now_open : Z).

Definition is_failure (c : Call) : bool :=
  match c with Failure _ _ _ => true | Success _ _ => false end.

Definition record (service_name : string) (stats : loc)
  (config : CircuitBreakerConfig) (c : Call) : M CircuitBreaker unit :=
  match c with
  | Success rt now => _record_success service_name stats config rt now
  | Failure rt now now_open => _record_failure service_name stats config rt now now_open
  end.

Fixpoint record_all (service_name : string) (stats : loc)
  (config : CircuitBreakerConfig) (cs : list Call) : M CircuitBreaker unit :=
  match cs with
  | [] => ret tt
  | c :: cs' =>
      record service_name stats config c ;;;
      record_all service_name stats config cs'
  end.

(** The number of failed calls among [cs]. *)
Definition failures (cs : list Call) : Z :=
  Z.of_nat (length (List.filter is_failure cs)).

(** The counters of a breaker that started Closed and empty and has since
    recorded [k] calls, [f] of them failed, without leaving the window:
    it is Open as soon as a failure has brought the failure count to the
    threshold. *)
Definition counted (config : CircuitBreakerConfig) (k f : Z)
  (s : CircuitBreakerStats) : Prop :=
  total_requests s = k /\ failed_requests s = f /\ failure_count s = f /\
  state s = if (1 <=? f) && (failure_threshold config <=? f) then OPEN else CLOSED.

Definition recorded (config : CircuitBreakerConfig) (c : Call)
  (s : CircuitBreakerStats) : CircuitBreakerStats :=
  match c with
  | Success rt now => success_recorded config rt now s
  | Failure rt now now_open => failure_recorded config rt now now_open s
  end.

(** [initialize] *)
Definition initialize (client : Redis.Client) : M CircuitBreaker unit :=
  modify (fun cb => mkCB (Some client) (_circuits cb) (objects cb) (logs cb)) ;;;
  try_except
    (redis Redis.ping ;;;
     log INFO "Circuit breaker initialized with Redis" "")
    (fun e => log WARNING "Circuit breaker falling back to local state" "").

(** *** What is read back from the store *)

(** A time field that is unset is left out of the HSET: the field of the
    hash keeps the value of an earlier save. *)
Definition kept_over (new old : option Z) : option Z :=
  match new with
  | Some t => Some t
  | None => old
  end.

(** The stats read back after [new] has been saved over [old]. *)
Definition overwritten (old new : CircuitBreakerStats) : CircuitBreakerStats :=
  mkStats (state new) (failure_count new) (success_count new)
    (kept_over (last_failure_time new) (last_failure_time old))
    (kept_over (last_success_time new) (last_success_time old))
    (total_requests new) (failed_requests new) (slow_requests new)
    (average_response_time new)
    (kept_over (next_attempt_time new) (next_attempt_time old)).

(** The hash that HSET finds under a key: empty for a free key. *)
Definition stored_hash (e : option Redis.Entry) : option (gmap string Redis.Scalar) :=
  match e with
  | None => Some ∅
  | Some (Redis.mkEntry (Redis.VHash h) _) => Some h
  | Some _ => None
  end.

(** The stats that a persisted hash parses to, if it does. *)
Definition parsed (h : gmap string Redis.Scalar) : option CircuitBreakerStats :=
  match stats_of_hash h (CircuitBreaker_new None) with
  | (Ok s, _) => Some s
  | (Raise _, _) => None
  end.

(** *** Invariants of the stats *)

(** The request counters are consistent, and a deadline is set exactly
    while the circuit is Open. *)
Definition sound (s : CircuitBreakerStats) : Prop :=
  0 <= failed_requests s /\ 0 <= slow_requests s /\
  failed_requests s + slow_requests s <= total_requests s /\
  (state s = OPEN <-> is_Some (next_attempt_time s)).

(** A breaker without store client all of whose cached stats are sound. *)
Definition well_kept (cb : CircuitBreaker) : Prop :=
  redis_client cb = None /\
  forall service_name l, _circuits cb !! service_name = Some l ->
    exists s, objects cb !! l = Some s /\ sound s.

(** The counters are consistent and within the sliding window. *)
Definition in_window (config : CircuitBreakerConfig) (s : CircuitBreakerStats) : Prop :=
  0 <= failed_requests s /\ 0 <= slow_requests s /\
  failed_requests s + slow_requests s <= total_requests s /\
  total_requests s <= sliding_window_size config.

(** The operations that change a circuit breaker. *)
Inductive Operation : Type :=
| CallWith (service_name : string) (func : Outcome)
    (config : option CircuitBreakerConfig) (t : Readings)
| RecordSuccess (service_name : string) (now : Z)
| RecordFailure (service_name : string) (now now_open : Z)
| ResetCircuit (service_name : string).

Definition perform (o : Operation) : M CircuitBreaker unit :=
  match o with
  | CallWith service_name func config t =>
      call_with_circuit_breaker service_name func config t
  | RecordSuccess service_name now => record_success service_name now
  | RecordFailure service_name now now_open => record_failure service_name now now_open
  | ResetCircuit service_name => reset_circuit service_name
  end.

(** The breaker after a sequence of operations, each run to its end,
    whether it returns or raises. *)
Definition performed (os : list Operation) (cb : CircuitBreaker) : CircuitBreaker :=
  foldl (fun cb o => exec (perform o) cb) cb os.

(** The configuration objects that an operation is given are pydantic
    models as they were constructed: their field constraints hold. *)
Definition configured (o : Operation) : bool :=
  match o with
  | CallWith _ _ (Some config) _ => CircuitBreakerConfig_valid config
  | _ => true
  end.

(** The breaker [seconds] seconds later: time has passed on the store. *)
Definition later (seconds : Z) (cb : CircuitBreaker) : CircuitBreaker :=
  mkCB (Redis.later seconds <$> redis_client cb) (_circuits cb) (objects cb) (logs cb).

(** Every call of a sequence is rejected with [CircuitBreakerException];
    each call is made [seconds] seconds after the one before it. *)
Fixpoint all_rejected (service_name : string) (config : option CircuitBreakerConfig)
  (calls : list (Z * Outcome * Readings)) (cb : CircuitBreaker) : Prop :=
  match calls with
  | [] => True
  | (seconds, func, t) :: calls' =>
      raises (call_with_circuit_breaker service_name func config t)
        (fun e cb' =>
           (exists retry_after, e = CircuitBreakerException service_name retry_after) /\
           all_rejected service_name config calls' cb') (later seconds cb)
  end.

End circuit_breaker.

(** ** rate_limiter.py *)

Module rate_limiter.

Inductive RateLimitStrategy : Type :=
| FIXED_WINDOW | SLIDING_WINDOW | TOKEN_BUCKET | LEAKY_BUCKET.

Record RateLimitConfig : Type := mkConfig {
  strategy : RateLimitStrategy;
  requests_per_minute : Z;
  requests_per_hour : Z;
  requests_per_day : Z;
  burst_limit : Z;
  bucket_capacity : Z;
  refill_rate : Q;
  leak_rate : Q
}.

(** The pydantic field constraints of [RateLimitConfig]. *)
Definition RateLimitConfig_valid (c : RateLimitConfig) : bool :=
  (1 <=? requests_per_minute c) &&
  (1 <=? requests_per_hour c) &&
  (1 <=? requests_per_day c) &&
  (1 <=? burst_limit c) &&
  (1 <=? bucket_capacity c) &&
  Qle_bool (1 # 10) (refill_rate c) &&
  Qle_bool (1 # 10) (leak_rate c).



Record RateLimitResult : Type := mkResult {
  allowed : bool;
  requests_remaining : Z;
  reset_time : Q;                 (* seconds since the epoch *)
  retry_after : option Z
}.

(** An entry of [self._local_cache]. *)
Record CacheEntry : Type := mkCache {
  requests : list Q;
  tokens : Q;
  last_refill : Q;
  volume : Q;
  last_leak : Q
}.

Record RateLimiter : Type := mkRL {
  redis_client : option Redis.Client;
  _local_cache : gmap string CacheEntry;
  logs : list LogRecord
}.

(** [RateLimiter(redis_client)] *)
Definition RateLimiter_new (redis_client : option Redis.Client) : RateLimiter :=
  mkRL redis_client ∅ [].

Definition tier (rpm rph rpd burst : Z) : RateLimitConfig :=
  mkConfig SLIDING_WINDOW rpm rph rpd burst 100 1%Q (5 # 10).

Definition basic : RateLimitConfig := tier 50 500 5000 10.

Definition default_configs : gmap string RateLimitConfig :=
  list_to_map
    [ ("free", tier 10 100 1000 5);
      ("basic", basic);
      ("premium", tier 200 2000 20000 50);
      ("enterprise", tier 1000 10000 100000 100) ].

Definition log (l : Level) (ev subj : string) : M RateLimiter unit :=
  modify (fun rl => mkRL (redis_client rl) (_local_cache rl) (logs rl ++ [mkLog l ev subj])).

(** One call of [self.redis_client]. *)
Definition redis {A} (cmd : Redis.Command A) : M RateLimiter A :=
  fun rl =>
    match redis_client rl with
    | Some c =>
        let '(r, c') := Redis.call cmd c in
        (r, mkRL (Some c') (_local_cache rl) (logs rl))
    | None => (Raise RedisError, rl)
    end.

Definition set_cache (identifier : string) (e : CacheEntry) : M RateLimiter unit :=
  modify (fun rl => mkRL (redis_client rl) (<[identifier := e]> (_local_cache rl)) (logs rl)).

(** The clock readings made during one check: at the entry of the check,
    at the entry of [_local_cache_check], and by [datetime.utcnow()] where
    a fallback result is built. *)
Record Readings : Type := mkReadings {
  at_entry : Q;
  at_local : Q;
  at_fallback : Q
}.

(** [_local_cache_check]; [now] is its reading of [time.time()], [utcnow]
    the reading of [datetime.utcnow()] of its last branch. *)
Definition _local_cache_check (identifier : string) (config : RateLimitConfig)
  (strategy_name : string) (now utcnow : Q) : M RateLimiter RateLimitResult :=
  cache <- gets _local_cache ;;
  (match cache !! identifier with
   | Some _ => ret tt
   | None =>
       set_cache identifier
         (mkCache [] (inject_Z (bucket_capacity config)) now 0 now)
   end) ;;;
  cache <- gets _local_cache ;;
  match cache !! identifier with
  | None => raise IndexError             (* the entry was just ensured *)
  | Some cache_entry =>
      if String.eqb strategy_name "sliding" then
        let kept := List.filter (fun req_time => negb (Qle_bool 60 (now - req_time)))
                      (requests cache_entry) in
        set_cache identifier
          (mkCache kept (tokens cache_entry) (last_refill cache_entry)
             (volume cache_entry) (last_leak cache_entry)) ;;;
        if requests_per_minute config <=? Z.of_nat (length kept) then
          match kept with
          | [] => raise IndexError
          | oldest :: _ =>
              let retry_after := py_int (oldest + 60 - now) in
              ret (mkResult false 0 (now + inject_Z retry_after) (Some retry_after))
          end
        else
          set_cache identifier
            (mkCache (kept ++ [now]) (tokens cache_entry) (last_refill cache_entry)
               (volume cache_entry) (last_leak cache_entry)) ;;;
          ret (mkResult true
                 (requests_per_minute config - Z.of_nat (length (kept ++ [now])))
                 (now + 60) None)
      else if String.eqb strategy_name "token" then
        let time_elapsed := (now - last_refill cache_entry)%Q in
        let tokens_to_add := (time_elapsed * refill_rate config)%Q in
        let refilled := Qmin (inject_Z (bucket_capacity config))
                          (tokens cache_entry + tokens_to_add) in
        set_cache identifier
          (mkCache (requests cache_entry) refilled now
             (volume cache_entry) (last_leak cache_entry)) ;;;
        if negb (Qle_bool 1 refilled) then
          r <- py_div 1 (refill_rate config) ;;
          let retry_after := py_int r in
          ret (mkResult false 0 (now + inject_Z retry_after) (Some retry_after))
        else
          set_cache identifier
            (mkCache (requests cache_entry) (refilled - 1) now
               (volume cache_entry) (last_leak cache_entry)) ;;;
          r <- py_div (inject_Z (bucket_capacity config) - (refilled - 1))
                 (refill_rate config) ;;
          ret (mkResult true (py_int (refilled - 1)) (now + r) None)
      else
        ret (mkResult true (requests_per_minute config) (utcnow + 60) None)
  end.

Definition minute_start (now : Q) : Z := 60 * Qfloor (now / 60).

(** The keys of the shared store. *)
Definition fixed_key (identifier : string) (window_start : Z) : string :=
  "rate_limit:fixed:" +:+ identifier +:+ ":" +:+ pretty window_start +:+ ".0".
Definition sliding_key (identifier : string) : string :=
  "rate_limit:sliding:" +:+ identifier.
Definition token_key (identifier : string) : string :=
  "rate_limit:token:" +:+ identifier.
Definition leaky_key (identifier : string) : string :=
  "rate_limit:leaky:" +:+ identifier.

(** [int(current_count) if current_count else 0] *)
Definition count_of (v : option Redis.Scalar) : Result Z :=
  match v with
  | None => Ok 0
  | Some (Redis.SInt z) => Ok z
  | Some (Redis.SText s) => if String.eqb s "" then Ok 0 else Raise ValueError
  | Some _ => Raise ValueError
  end.

(** [_fixed_window_check] *)
Definition _fixed_window_check (identifier : string) (config : RateLimitConfig)
  (t : Readings) : M RateLimiter RateLimitResult :=
  let now := at_entry t in
  let window_start := minute_start now in
  let key := fixed_key identifier window_start in
  try_except
    (client <- gets redis_client ;;
     match client with
     | Some _ =>
         v <- redis (Redis.get key) ;;
         current_count <- lift (count_of v) ;;
         if requests_per_minute config <=? current_count then
           ret (mkResult false 0 (inject_Z window_start + 60) (Some 60))
         else
           redis (Redis.pipeline (Redis.incr key) (Redis.expire key 60)) ;;;
           ret (mkResult true (requests_per_minute config - current_count - 1)
                  (inject_Z window_start + 60) None)
     | None => _local_cache_check identifier config "fixed" (at_local t) (at_fallback t)
     end)
    (fun e =>
       log ERROR "Fixed window rate limit check failed" identifier ;;;
       ret (mkResult true (requests_per_minute config) (now + 60) None)).

(** [_sliding_window_check] *)
Definition _sliding_window_check (identifier : string) (config : RateLimitConfig)
  (t : Readings) : M RateLimiter RateLimitResult :=
  let now := at_entry t in
  let window_start := (now - 60)%Q in
  let key := sliding_key identifier in
  try_except
    (client <- gets redis_client ;;
     match client with
     | Some _ =>
         redis (Redis.zremrangebyscore_upto key window_start) ;;;
         current_count <- redis (Redis.zcard key) ;;
         if requests_per_minute config <=? current_count then
           oldest <- redis (Redis.zrange_first key) ;;
           let retry_after :=
             match oldest with
             | (_, score) :: _ => py_int (score + 60 - now)
             | [] => 60
             end in
           ret (mkResult false 0 (now + inject_Z retry_after) (Some retry_after))
         else
           redis (Redis.pipeline (Redis.zadd key now now) (Redis.expire key 60)) ;;;
           ret (mkResult true (requests_per_minute config - current_count - 1)
                  (now + 60) None)
     | None => _local_cache_check identifier config "sliding" (at_local t) (at_fallback t)
     end)
    (fun e =>
       log ERROR "Sliding window rate limit check failed" identifier ;;;
       ret (mkResult true (requests_per_minute config) (at_fallback t + 60) None)).

(** The Lua script of the token bucket, run atomically by the store; the
    reply is [(allowed, tokens, now)] as integers. *)
Definition token_bucket_script (key : string) (capacity refill_rate now : Q)
  : Redis.Command (Z * Z * Z) :=
  fun d =>
    let run (h : gmap string Redis.Scalar) (ttl : option Z) :=
      let tokens := default capacity (Redis.tonumber (h !! "tokens")) in
      let last_refill := default now (Redis.tonumber (h !! "last_refill")) in
      let time_elapsed := (now - last_refill)%Q in
      let tokens_to_add := (time_elapsed * refill_rate)%Q in
      let tokens := Qmin capacity (tokens + tokens_to_add) in
      if negb (Qle_bool 1 tokens) then
        (Ok (0, Redis.reply_integer tokens, Redis.reply_integer now), d)
      else
        let tokens := (tokens - 1)%Q in
        let h' := <["tokens" := Redis.SNum tokens]> (<["last_refill" := Redis.SNum now]> h) in
        (Ok (1, Redis.reply_integer tokens, Redis.reply_integer now),
         <[key := Redis.mkEntry (Redis.VHash h') (Some 3600)]> d) in
    match d !! key with
    | None => run ∅ None
    | Some (Redis.mkEntry (Redis.VHash h) ttl) => run h ttl
    | Some _ => (Raise RedisError, d)
    end.

(** [_token_bucket_check] *)
Definition _token_bucket_check (identifier : string) (config : RateLimitConfig)
  (t : Readings) : M RateLimiter RateLimitResult :=
  let now := at_entry t in
  let key := token_key identifier in
  try_except
    (client <- gets redis_client ;;
     match client with
     | Some _ =>
         result <- redis (token_bucket_script key
                            (inject_Z (bucket_capacity config)) (refill_rate config) now) ;;
         let '(flag, remaining_tokens, _) := result in
         if flag =? 0 then
           r <- py_div 1 (refill_rate config) ;;
           let retry_after := py_int r in
           ret (mkResult false 0 (now + inject_Z retry_after) (Some retry_after))
         else
           r <- py_div (inject_Z (bucket_capacity config - remaining_tokens))
                  (refill_rate config) ;;
           ret (mkResult true remaining_tokens (now + r) None)
     | None => _local_cache_check identifier config "token" (at_local t) (at_fallback t)
     end)
    (fun e =>
       log ERROR "Token bucket rate limit check failed" identifier ;;;
       ret (mkResult true (bucket_capacity config) (at_fallback t + 60) None)).

(** The Lua script of the leaky bucket. *)
Definition leaky_bucket_script (key : string) (capacity leak_rate now : Q)
  : Redis.Command (Z * Z * Z) :=
  fun d =>
    let run (h : gmap string Redis.Scalar) (ttl : option Z) :=
      let volume := default 0%Q (Redis.tonumber (h !! "volume")) in
      let last_leak := default now (Redis.tonumber (h !! "last_leak")) in
      let time_elapsed := (now - last_leak)%Q in
      let volume_to_leak := (time_elapsed * leak_rate)%Q in
      let volume := Qmax 0 (volume - volume_to_leak) in
      if Qle_bool capacity volume then
        (Ok (0, Redis.reply_integer volume, Redis.reply_integer now), d)
      else
        let volume := (volume + 1)%Q in
        let h' := <["volume" := Redis.SNum volume]> (<["last_leak" := Redis.SNum now]> h) in
        (Ok (1, Redis.reply_integer volume, Redis.reply_integer now),
         <[key := Redis.mkEntry (Redis.VHash h') (Some 3600)]> d) in
    match d !! key with
    | None => run ∅ None
    | Some (Redis.mkEntry (Redis.VHash h) ttl) => run h ttl
    | Some _ => (Raise RedisError, d)
    end.

(** [_leaky_bucket_check] *)
Definition _leaky_bucket_check (identifier : string) (config : RateLimitConfig)
  (t : Readings) : M RateLimiter RateLimitResult :=
  let now := at_entry t in
  let key := leaky_key identifier in
  try_except
    (client <- gets redis_client ;;
     match client with
     | Some _ =>
         result <- redis (leaky_bucket_script key
                            (inject_Z (bucket_capacity config)) (leak_rate config) now) ;;
         let '(flag, current_volume, _) := result in
         if flag =? 0 then
           r <- py_div 1 (leak_rate config) ;;
           let retry_after := py_int r in
           ret (mkResult false 0 (now + inject_Z retry_after) (Some retry_after))
         else
           r <- py_div (inject_Z current_volume) (leak_rate config) ;;
           ret (mkResult true (bucket_capacity config - current_volume) (now + r) None)
     | None => _local_cache_check identifier config "leaky" (at_local t) (at_fallback t)
     end)
    (fun e =>
       log ERROR "Leaky bucket rate limit check failed" identifier ;;;
       ret (mkResult true (bucket_capacity config) (at_fallback t + 60) None)).

(** [check_rate_limit] *)
Definition check_rate_limit (identifier : string) (config : option RateLimitConfig)
  (user_tier : string) (t : Readings) : M RateLimiter RateLimitResult :=
  let config := default (default basic (default_configs !! user_tier)) config in
  match strategy config with
  | FIXED_WINDOW => _fixed_window_check identifier config t
  | SLIDING_WINDOW => _sliding_window_check identifier config t
  | TOKEN_BUCKET => _token_bucket_check identifier config t
  | LEAKY_BUCKET => _leaky_bucket_check identifier config t
  end.

(** [reset_rate_limit]; [glob pattern key] is the store's MATCH. *)
Definition reset_rate_limit (glob : string -> string -> bool) (identifier : string)
  : M RateLimiter unit :=
  try_except
    (client <- gets redis_client ;;
     (match client with
      | Some _ =>
          let pattern := "rate_limit:*:" +:+ identifier +:+ "*" in
          keys <- redis (Redis.scan (glob pattern)) ;;
          match keys with
          | [] => ret tt
          | _ => redis (Redis.del keys) ;;; ret tt
          end
      | None => ret tt
      end) ;;;
     modify (fun rl =>
       mkRL (redis_client rl) (delete identifier (_local_cache rl)) (logs rl)) ;;;
     log INFO "Rate limit reset" identifier)
    (fun e => log ERROR "Failed to reset rate limit" identifier).

(** The value returned, if any. *)
Definition r_ok {A} (r : Result A) : option A :=
  match r with
  | Ok a => Some a
  | Raise _ => None
  end.

(** The hash stored for the token bucket of [identifier], empty when
    there is none. *)
Definition stored_bucket (identifier : string) (c : Redis.Client)
  : gmap string Redis.Scalar :=
  match Redis.data c !! token_key identifier with
  | Some (Redis.mkEntry (Redis.VHash h) _) => h
  | _ => ∅
  end.

(** The token count after the refill of a check made at [now]. *)
Definition refilled (config : RateLimitConfig) (tokens last_refill now : Q) : Q :=
  Qmin (inject_Z (bucket_capacity config))
    (tokens + (now - last_refill) * refill_rate config).

(** A sequence of checks for one identifier, and their results in order. *)
Fixpoint check_all (identifier : string) (config : RateLimitConfig)
  (ts : list Readings) : M RateLimiter (list RateLimitResult) :=
  match ts with
  | [] => ret []
  | t :: ts' =>
      r <- check_rate_limit identifier (Some config) "basic" t ;;
      rs <- check_all identifier config ts' ;;
      ret (r :: rs)
  end.

(** All three clock readings of a check are [now]. *)
Definition at_time (now : Q) : Readings := mkReadings now now now.

(** The sorted set stored for the sliding window of [identifier]. *)
Definition stored_window (identifier : string) (c : Redis.Client) : list (Q * Q) :=
  match Redis.data c !! sliding_key identifier with
  | Some (Redis.mkEntry (Redis.VZSet z) _) => z
  | _ => []
  end.

(** The requests that the local cache holds for an identifier. *)
Definition cached_requests (identifier : string) (rl : RateLimiter) : list Q :=
  match _local_cache rl !! identifier with
  | Some e => requests e
  | None => []
  end.

(** The key of the sliding window is free or holds a sorted set (which
    the store keeps only while it has members). *)
Definition window_ok (identifier : string) (c : Redis.Client) : Prop :=
  match Redis.data c !! sliding_key identifier with
  | None => True
  | Some (Redis.mkEntry (Redis.VZSet (_ :: _)) _) => True
  | Some _ => False
  end.

(** How many calls of the store client have raised so far. *)
Definition raised_of (rl : RateLimiter) : nat :=
  match redis_client rl with
  | Some c => Redis.raised c
  | None => 0%nat
  end.

(** The limit that a fail-open result reports for a strategy. *)
Definition limit (config : RateLimitConfig) : Z :=
  match strategy config with
  | FIXED_WINDOW | SLIDING_WINDOW => requests_per_minute config
  | TOKEN_BUCKET | LEAKY_BUCKET => bucket_capacity config
  end.

(** [no_raise rl0 rl]: [rl] is [rl0] after store calls none of which has
    raised; [after_raise rl0 rl]: after store calls of which one may have
    raised.  Neither the local cache nor the log has changed. *)
Definition no_raise (rl0 rl : RateLimiter) : Prop :=
  _local_cache rl = _local_cache rl0 /\ logs rl = logs rl0 /\
  is_Some (redis_client rl) /\ raised_of rl = raised_of rl0.

Definition after_raise (rl0 rl : RateLimiter) : Prop :=
  _local_cache rl = _local_cache rl0 /\ logs rl = logs rl0 /\
  is_Some (redis_client rl).

(** What a check run with a store client guarantees, whatever the store
    does: the local cache is not touched, and if a store call has raised
    the result is [fail_open] and an error is logged. *)
Definition absorbed (identifier : string) (fail_open : RateLimitResult)
  (rl0 : RateLimiter) (r : RateLimitResult) (rl : RateLimiter) : Prop :=
  _local_cache rl = _local_cache rl0 /\
  ((raised_of rl0 < raised_of rl)%nat ->
   r = fail_open /\
   exists ev, logs rl = logs rl0 ++ [mkLog ERROR ev identifier]).

End rate_limiter.

(** * Properties *)

(** ** Reasoning rules for the monad *)

Lemma returns_ret {S A} (a : A) (Q : A -> S -> Prop) s :
  Q a s -> returns (ret a) Q s.
Proof. done. Qed.

Lemma returns_bind {S A B} (m : M S A) (k : A -> M S B) (Q : B -> S -> Prop) s :
  returns m (fun a s' => returns (k a) Q s') s -> returns (bind m k) Q s.
Proof. unfold returns, bind. destruct (m s) as [[a|e] s']; done. Qed.

Lemma returns_mono {S A} (m : M S A) (P Q : A -> S -> Prop) s :
  returns m P s -> (forall a s', P a s' -> Q a s') -> returns m Q s.
Proof. unfold returns. destruct (m s) as [[a|e] s']; [auto | done]. Qed.

Lemma returns_run {S A} (m : M S A) (Q : A -> S -> Prop) s :
  returns m Q s <-> exists a s', m s = (Ok a, s') /\ Q a s'.
Proof.
  unfold returns. destruct (m s) as [[a|e] s']; split.
  - intros H. by exists a, s'.
  - intros (a' & s'' & [= -> ->] & H). done.
  - done.
  - intros (a' & s'' & [=] & _).
Qed.

Module CircuitBreakerProperties.
Import circuit_breaker.

Lemma returns_log lv ev subj (Q : unit -> CircuitBreaker -> Prop) cb :
  Q tt (mkCB (redis_client cb) (_circuits cb) (objects cb) (logs cb ++ [mkLog lv ev subj])) ->
  returns (log lv ev subj) Q cb.
Proof. done. Qed.

Lemma returns_write l f (Q : unit -> CircuitBreaker -> Prop) cb :
  Q tt (mkCB (redis_client cb) (_circuits cb) (alter f l (objects cb)) (logs cb)) ->
  returns (write l f) Q cb.
Proof. done. Qed.

Lemma returns_read l (Q : CircuitBreakerStats -> CircuitBreaker -> Prop) cb :
  Q (default (CircuitBreakerStats_new CLOSED) (objects cb !! l)) cb ->
  returns (read l) Q cb.
Proof. done. Qed.


Lemma _save_circuit_stats_returns service_name l cb :
  returns (_save_circuit_stats service_name l) (fun _ cb' => saved service_name l cb cb') cb.
Proof.
  unfold _save_circuit_stats, returns, bind, try_except, set_circuit, modify, gets, redis, read, log, saved, ret.
  simpl. destruct (redis_client cb) as [c|]; simpl; [|done].
  unfold Redis.call.
  destruct (Redis.faults c) as [|[] fs]; simpl;
  repeat match goal with
  | |- context [Redis.hset ?k ?m ?d] => destruct (Redis.hset k m d) as [[[]|?] ?]; simpl
  | |- context [Redis.expire ?k ?m ?d] => destruct (Redis.expire k m d) as [[[]|?] ?]; simpl
  | |- context [match ?fs with [] => _ | _ => _ end] => destruct fs as [|[] ?]; simpl
  end; done.
Qed.


Lemma at_object_init l cb st :
  objects cb !! l = Some st -> at_object l cb st cb.
Proof. intros H. split; [|done]. by rewrite insert_id. Qed.

Lemma at_object_write l cb0 st cb f :
  at_object l cb0 st cb ->
  returns (write l f) (fun _ cb' => at_object l cb0 (f st) cb') cb.
Proof.
  intros (Ho & Hc & Hr). apply returns_write. split; [|done]. simpl.
  rewrite Ho. apply map_eq. intros l'. rewrite lookup_alter.
  destruct (decide (l = l')) as [->|Hne].
  - by rewrite !lookup_insert_eq.
  - by rewrite !lookup_insert_ne.
Qed.

Lemma at_object_read l cb0 st cb :
  at_object l cb0 st cb ->
  returns (read l) (fun s cb' => s = st /\ cb' = cb) cb.
Proof. intros (Ho & _). apply returns_read. by rewrite Ho, lookup_insert_eq. Qed.

Lemma at_object_log l cb0 st cb lv ev subj :
  at_object l cb0 st cb ->
  returns (log lv ev subj) (fun _ cb' => at_object l cb0 st cb') cb.
Proof. intros H. apply returns_log. exact H. Qed.

Ltac step_with lem :=
  eapply returns_bind, returns_mono; [eapply lem; eassumption | cbv beta; intros ? ? ?].

Ltac step :=
  first [ step_with at_object_write
        | step_with at_object_log
        | eapply returns_bind, returns_mono;
          [eapply at_object_read; eassumption
          | cbv beta; intros ? ? [-> ->]] ].

Lemma _transition_to_open_returns service_name l config now cb0 st cb :
  at_object l cb0 st cb ->
  returns (_transition_to_open service_name l config now)
    (fun _ cb' => at_object l cb0 (opened config now st) cb') cb.
Proof.
  intros H. unfold _transition_to_open, _send_circuit_alert.
  do 3 step. by eapply at_object_log.
Qed.

Lemma _transition_to_half_open_returns service_name l config cb0 st cb :
  at_object l cb0 st cb ->
  returns (_transition_to_half_open service_name l config)
    (fun _ cb' => at_object l cb0 (half_opened st) cb') cb.
Proof.
  intros H. unfold _transition_to_half_open, _send_circuit_alert.
  do 5 step. by eapply at_object_log.
Qed.

Lemma _transition_to_closed_returns service_name l config cb0 st cb :
  at_object l cb0 st cb ->
  returns (_transition_to_closed service_name l config)
    (fun _ cb' => at_object l cb0 (closed st) cb') cb.
Proof.
  intros H. unfold _transition_to_closed, _send_circuit_alert.
  do 5 step. by eapply at_object_log.
Qed.

Lemma _apply_sliding_window_returns service_name l config cb0 st cb :
  at_object l cb0 st cb ->
  returns (_apply_sliding_window service_name l config)
    (fun _ cb' => at_object l cb0
       (set_slow_requests (scaled (slow_requests st))
         (set_failed_requests (scaled (failed_requests st))
           (set_total_requests (scaled (total_requests st)) st))) cb') cb.
Proof.
  intros H. unfold _apply_sliding_window.
  do 3 step. by eapply at_object_log.
Qed.

Lemma update_average_returns l response_time cb0 st cb :
  at_object l cb0 st cb ->
  total_requests st <> 0 ->
  returns (update_average l response_time)
    (fun _ cb' => at_object l cb0 (averaged response_time st) cb') cb.
Proof.
  intros H Hne. unfold update_average, averaged. step.
  destruct (total_requests st =? 1).
  - by eapply at_object_write.
  - unfold py_div.
    assert (Qeq_bool (inject_Z (total_requests st)) 0 = false) as ->.
    { destruct (Qeq_bool _ 0) eqn:E; [|done].
      apply Qeq_bool_eq in E. unfold Qeq in E. simpl in E. lia. }
    eapply returns_bind, returns_ret. cbv beta. by eapply at_object_write.
Qed.

Lemma at_object_save service_name l cb0 st cb :
  at_object l cb0 st cb ->
  returns (_save_circuit_stats service_name l)
    (fun _ cb' => objects cb' = <[l := st]> (objects cb0) /\
                  _circuits cb' = <[service_name := l]> (_circuits cb0)) cb.
Proof.
  intros (Ho & Hc & Hr).
  eapply returns_mono; [apply _save_circuit_stats_returns|].
  intros _ cb' [Ho' Hc']. simpl. by rewrite Ho', Hc', Ho, Hc.
Qed.


Lemma recorded_at_object service_name l cb0 st' cb' :
  recorded_at service_name l cb0 st' cb' ->
  object_at l cb' = Some st' /\ cached service_name cb' = Some st'.
Proof.
  intros [Ho Hc]. unfold object_at, cached.
  rewrite Hc, Ho, !lookup_insert_eq. simpl. by rewrite lookup_insert_eq.
Qed.

Lemma decayed_returns service_name l config cb0 st cb :
  at_object l cb0 st cb ->
  returns (if sliding_window_size config <? total_requests st
           then _apply_sliding_window service_name l config else ret tt)
    (fun _ cb' => at_object l cb0 (decayed config st) cb') cb.
Proof.
  intros H. unfold decayed. destruct (_ <? _).
  - by apply _apply_sliding_window_returns.
  - by apply returns_ret.
Qed.

Lemma slow_call_returns l config response_time cb0 st cb :
  at_object l cb0 st cb ->
  returns (if Qle_bool response_time (slow_call_duration_threshold config) then ret tt
           else write l (fun s => set_slow_requests (slow_requests s + 1) s))
    (fun _ cb' => at_object l cb0
       (if Qle_bool response_time (slow_call_duration_threshold config) then st
        else set_slow_requests (slow_requests st + 1) st) cb') cb.
Proof.
  intros H. destruct (Qle_bool _ _).
  - by apply returns_ret.
  - by apply (at_object_write l cb0 st cb
                (fun s => set_slow_requests (slow_requests s + 1) s)).
Qed.

Lemma close_after_success_returns service_name l config cb0 st cb :
  at_object l cb0 st cb ->
  returns (match state st with
           | HALF_OPEN =>
               if success_threshold config <=? success_count st
               then _transition_to_closed service_name l config
               else ret tt
           | _ => ret tt
           end)
    (fun _ cb' => at_object l cb0
       (match state st with
        | HALF_OPEN => if success_threshold config <=? success_count st
                       then closed st else st
        | _ => st
        end) cb') cb.
Proof.
  intros H. destruct (state st); try by apply returns_ret.
  destruct (_ <=? _).
  - by apply _transition_to_closed_returns.
  - by apply returns_ret.
Qed.

Lemma open_after_failure_returns service_name l config now_open cb0 st cb :
  at_object l cb0 st cb ->
  returns (match state st with
           | CLOSED =>
               if failure_threshold config <=? failure_count st
               then _transition_to_open service_name l config now_open
               else ret tt
           | HALF_OPEN => _transition_to_open service_name l config now_open
           | OPEN => ret tt
           end)
    (fun _ cb' => at_object l cb0
       (match state st with
        | CLOSED => if failure_threshold config <=? failure_count st
                    then opened config now_open st else st
        | HALF_OPEN => opened config now_open st
        | OPEN => st
        end) cb') cb.
Proof.
  intros H. destruct (state st).
  - destruct (_ <=? _).
    + by apply _transition_to_open_returns.
    + by apply returns_ret.
  - by apply returns_ret.
  - by apply _transition_to_open_returns.
Qed.

Lemma _record_success_returns service_name l config response_time now cb st :
  objects cb !! l = Some st ->
  total_requests st <> -1 ->
  returns (_record_success service_name l config response_time now)
    (fun _ => recorded_at service_name l cb
                (success_recorded config response_time now st)) cb.
Proof.
  intros H%at_object_init Hne. unfold _record_success, success_recorded.
  do 3 step.
  eapply returns_bind, returns_mono;
    [eapply update_average_returns; [eassumption | simpl; lia] | cbv beta; intros ? ? ?].
  step_with slow_call_returns.
  step. step_with close_after_success_returns.
  step. step_with decayed_returns.
  step_with at_object_save.
  apply returns_log. assumption.
Qed.

Lemma _record_failure_returns service_name l config response_time now now_open cb st :
  objects cb !! l = Some st ->
  total_requests st <> -1 ->
  returns (_record_failure service_name l config response_time now now_open)
    (fun _ => recorded_at service_name l cb
                (failure_recorded config response_time now now_open st)) cb.
Proof.
  intros H%at_object_init Hne. unfold _record_failure, failure_recorded.
  do 4 step.
  eapply returns_bind, returns_mono;
    [eapply update_average_returns; [eassumption | simpl; lia] | cbv beta; intros ? ? ?].
  step. step_with open_after_failure_returns.
  step. step_with decayed_returns.
  step_with at_object_save.
  apply returns_log. assumption.
Qed.


Lemma _can_proceed_async_returns service_name l config now now_open cb st :
  objects cb !! l = Some st ->
  (state st = CLOSED -> minimum_number_of_calls config <= total_requests st ->
   total_requests st <> 0) ->
  returns (_can_proceed_async service_name l config now now_open)
    (fun ok cb' => ok = fst (checked config now now_open st) /\
                   at_object l cb (snd (checked config now now_open st)) cb') cb.
Proof.
  intros H%at_object_init Hne. unfold _can_proceed_async, checked. step.
  destruct (state st).
  - destruct (_ <=? _) eqn:Hmin; simpl.
    + unfold py_div.
      assert (Qeq_bool (inject_Z (total_requests st)) 0 = false) as ->.
      { destruct (Qeq_bool _ 0) eqn:E; [|done].
        apply Qeq_bool_eq in E. unfold Qeq in E. simpl in E.
        exfalso. apply Hne; [done | lia | lia]. }
      eapply returns_bind, returns_ret. cbv beta.
      eapply returns_bind, returns_ret. cbv beta.
      destruct (_ || _).
      * step_with _transition_to_open_returns. by apply returns_ret.
      * by apply returns_ret.
    + by apply returns_ret.
  - destruct (next_attempt_time st) as [t|]; [|by apply returns_ret].
    destruct (t <=? now).
    + step_with _transition_to_half_open_returns. by apply returns_ret.
    + by apply returns_ret.
  - by apply returns_ret.
Qed.

(** *** Counters *)

Lemma scaled_nonneg n : 0 <= n -> 0 <= scaled n.
Proof.
  intros Hn. unfold scaled, py_int, reduction_factor.
  assert (0 <= inject_Z n * (8 # 10))%Q as Hq.
  { apply Qmult_le_0_compat; [|done]. unfold Qle. simpl. lia. }
  assert (Qle_bool 0 (inject_Z n * (8 # 10)) = true) as -> by by apply Qle_bool_iff.
  change 0 with (Qfloor 0). by apply Qfloor_resp_le.
Qed.

Lemma total_requests_averaged response_time s :
  total_requests (averaged response_time s) = total_requests s.
Proof. unfold averaged. by destruct (_ =? _). Qed.

Lemma total_requests_decayed_nonneg config s :
  0 <= total_requests s -> 0 <= total_requests (decayed config s).
Proof.
  intros Hs. unfold decayed. destruct (_ <? _); [|done]. simpl. by apply scaled_nonneg.
Qed.

Lemma recorded_total_nonneg config c st :
  0 <= total_requests st -> 0 <= total_requests (recorded config c st).
Proof.
  intros H.
  destruct c; simpl; unfold success_recorded, failure_recorded; cbv zeta;
    apply total_requests_decayed_nonneg.
  - match goal with |- context [averaged ?r ?s] =>
      pose proof (total_requests_averaged r s) as Ha; set (s1 := averaged r s) in * end.
    simpl in Ha.
    destruct (Qle_bool _ _); destruct (state _); simpl;
      try destruct (_ <=? _); simpl; lia.
  - match goal with |- context [averaged ?r ?s] =>
      pose proof (total_requests_averaged r s) as Ha; set (s1 := averaged r s) in * end.
    simpl in Ha.
    destruct (state _); simpl; try destruct (_ <=? _); simpl; lia.
Qed.

Lemma record_returns service_name l config c cb st :
  objects cb !! l = Some st ->
  0 <= total_requests st ->
  returns (record service_name l config c)
    (fun _ => recorded_at service_name l cb (recorded config c st)) cb.
Proof.
  intros H Hn. destruct c; simpl.
  - apply _record_success_returns; [done | lia].
  - apply _record_failure_returns; [done | lia].
Qed.

Lemma record_all_returns service_name l config cs : forall cb st,
  objects cb !! l = Some st ->
  0 <= total_requests st ->
  returns (record_all service_name l config cs)
    (fun _ cb' => object_at l cb' = Some (foldl (fun s c => recorded config c s) st cs)) cb.
Proof.
  induction cs as [|c cs IH]; intros cb st H Hn; simpl.
  - by apply returns_ret.
  - eapply returns_bind, returns_mono; [by apply record_returns|].
    cbv beta. intros _ cb' Hr.
    apply recorded_at_object in Hr as [Ho _].
    apply IH; [exact Ho | by apply recorded_total_nonneg].
Qed.

Lemma counted_recorded config c s k f :
  0 <= k -> 0 <= f ->
  k + 1 <= sliding_window_size config ->
  counted config k f s ->
  counted config (k + 1) (f + (if is_failure c then 1 else 0)) (recorded config c s).
Proof.
  intros Hk Hf Hw (Ht & Hfr & Hfc & Hst).
  assert (forall s', total_requests s' = k + 1 -> decayed config s' = s') as Hd.
  { intros s' E. unfold decayed. rewrite E.
    by destruct (Z.ltb_spec (sliding_window_size config) (k + 1)); [lia|]. }
  destruct c as [rt now | rt now now_open]; simpl;
    unfold success_recorded, failure_recorded; cbv zeta.
  - match goal with |- context [averaged ?r ?s] =>
      pose proof (total_requests_averaged r s) as Ha;
      assert (state (averaged r s) = state s /\ failed_requests (averaged r s) = failed_requests s
              /\ failure_count (averaged r s) = failure_count s)
        as (Hs1 & Hs2 & Hs3) by (unfold averaged; by destruct (_ =? _));
      set (s1 := averaged r s) in * end.
    simpl in Ha, Hs1, Hs2, Hs3.
    assert (state s1 <> HALF_OPEN) as Hnh.
    { rewrite Hs1, Hst. by destruct (_ && _). }
    rewrite Hd.
    + unfold counted. rewrite Z.add_0_r.
      destruct (Qle_bool _ _); simpl; destruct (state s1) eqn:E; simpl in *; try done;
        repeat split; congruence.
    + destruct (Qle_bool _ _); simpl; destruct (state s1) eqn:E; simpl in *; try done; lia.
  - match goal with |- context [averaged ?r ?s] =>
      pose proof (total_requests_averaged r s) as Ha;
      assert (state (averaged r s) = state s /\ failed_requests (averaged r s) = failed_requests s
              /\ failure_count (averaged r s) = failure_count s)
        as (Hs1 & Hs2 & Hs3) by (unfold averaged; by destruct (_ =? _));
      set (s1 := averaged r s) in * end.
    simpl in Ha, Hs1, Hs2, Hs3.
    rewrite Hd.
    + unfold counted.
      assert ((1 <=? f + 1) = true) as -> by lia. simpl andb.
      rewrite Hs1, Hst, Hs3, Hfc. simpl.
      destruct (Z.leb_spec (failure_threshold config) (f + 1)) as [Hle|Hgt].
      * destruct ((1 <=? f) && (failure_threshold config <=? f)) eqn:Eb; simpl;
          rewrite ?Ha, ?Hs2, ?Hs1, ?Hst, ?Eb; repeat split; lia.
      * assert ((failure_threshold config <=? f) = false) as -> by lia.
        rewrite andb_false_r. simpl.
        rewrite ?Ha, ?Hs2, ?Hs1, ?Hs3, ?Hst.
        assert ((failure_threshold config <=? f) = false) as -> by lia.
        rewrite andb_false_r. repeat split; lia.
    + rewrite Hs1, Hst, Hs3, Hfc. simpl.
      destruct ((1 <=? f) && (failure_threshold config <=? f)) eqn:Eb; simpl;
        try destruct (failure_threshold config <=? f + 1); simpl; lia.
Qed.

Lemma failures_cons c cs :
  failures (c :: cs) = (if is_failure c then 1 else 0) + failures cs.
Proof. unfold failures. simpl. destruct (is_failure c); simpl; lia. Qed.

Lemma failures_bounds cs : 0 <= failures cs <= Z.of_nat (length cs).
Proof.
  induction cs as [|c cs IH]; [done|]. rewrite failures_cons.
  simpl length. destruct (is_failure c); lia.
Qed.

Lemma counted_all config cs : forall s k f,
  0 <= k -> 0 <= f ->
  k + Z.of_nat (length cs) <= sliding_window_size config ->
  counted config k f s ->
  counted config (k + Z.of_nat (length cs)) (f + failures cs)
    (foldl (fun s c => recorded config c s) s cs).
Proof.
  induction cs as [|c cs IH]; intros s k f Hk Hf Hw Hc.
  - simpl. unfold failures. simpl. by rewrite !Z.add_0_r.
  - simpl foldl. simpl length in *. rewrite failures_cons.
    replace (k + Z.of_nat (S (length cs))) with ((k + 1) + Z.of_nat (length cs)) by lia.
    rewrite Z.add_assoc. apply IH; [lia | destruct (is_failure c); lia | lia |].
    apply counted_recorded; [done | done | lia | done].
Qed.

Lemma counted_fresh config : counted config 0 0 (CircuitBreakerStats_new CLOSED).
Proof. done. Qed.

(** *** C1: when a Closed breaker opens *)

(** C1, as stated, fails: the default configuration of the "trading"
    service has [minimum_number_of_calls = 10], and three recorded failures
    out of three calls open its breaker. *)
Lemma three_failures_open_trading :
  minimum_number_of_calls (config_for "trading") = 10 /\
  let cb := exec (record_failure "trading" 3000000 3000000)
              (exec (record_failure "trading" 2000000 2000000)
                 (exec (record_failure "trading" 1000000 1000000)
                    (CircuitBreaker_new None))) in
  state <$> cached "trading" cb = Some OPEN /\
  total_requests <$> cached "trading" cb = Some 3.
Proof. vm_compute. done. Qed.

(** C1, amended.  With [minimum_number_of_calls = 10], for a breaker that
    starts Closed and empty:
    - after 3 recorded failures out of 3 calls it is Open exactly when
      [failure_threshold <= 3] (the recorder opens it on the failure count,
      whatever the sample size); when it is still Closed, the rate check of
      [_can_proceed_async] lets the call through and changes nothing;
    - after 10 recorded calls of which 6 failed, in any order, it is Open
      if [failure_threshold <= 6], and otherwise it is still Closed and the
      next [_can_proceed_async] opens it (failure rate 6/10 >= 0.5) and
      answers false. *)
Theorem closed_breaker_opens_on_count_or_rate service_name l config cb :
  objects cb !! l = Some (CircuitBreakerStats_new CLOSED) ->
  minimum_number_of_calls config = 10 ->
  10 <= sliding_window_size config ->
  (forall c1 c2 c3,
     is_failure c1 = true -> is_failure c2 = true -> is_failure c3 = true ->
     returns (record_all service_name l config [c1; c2; c3])
       (fun _ cb' => exists st,
          object_at l cb' = Some st /\
          total_requests st = 3 /\ failed_requests st = 3 /\
          state st = (if failure_threshold config <=? 3 then OPEN else CLOSED) /\
          (state st = CLOSED -> forall now now_open,
             returns (_can_proceed_async service_name l config now now_open)
               (fun ok cb'' => ok = true /\ object_at l cb'' = Some st) cb')) cb) /\
  (forall cs,
     length cs = 10%nat -> failures cs = 6 ->
     returns (record_all service_name l config cs)
       (fun _ cb' => exists st,
          object_at l cb' = Some st /\
          total_requests st = 10 /\ failed_requests st = 6 /\
          state st = (if failure_threshold config <=? 6 then OPEN else CLOSED) /\
          (state st = CLOSED -> forall now now_open,
             returns (_can_proceed_async service_name l config now now_open)
               (fun ok cb'' => ok = false /\ exists st',
                  object_at l cb'' = Some st' /\ state st' = OPEN /\
                  next_attempt_time st' =
                    Some (now_open + timedelta_seconds (timeout config))) cb')) cb).
Proof.
  intros Hl Hmin Hw. split.
  - intros c1 c2 c3 H1 H2 H3.
    eapply returns_mono; [apply (record_all_returns _ _ _ _ _ _ Hl); done|].
    cbv beta. intros _ cb' Ho.
    pose proof (counted_all config [c1; c2; c3] _ 0 0 ltac:(done) ltac:(done)
                  ltac:(simpl; lia) (counted_fresh config)) as (Ht & Hf & _ & Hs).
    rewrite !failures_cons, H1, H2, H3 in Hf, Hs.
    set (st := foldl _ _ _) in *. simpl in Ht, Hf, Hs.
    eexists. split; [exact Ho|]. repeat split; try done.
    intros Hc now now_open.
    eapply returns_mono.
    { apply _can_proceed_async_returns; [exact Ho | intros _ _; lia]. }
    cbv beta. intros ok cb'' [-> (Hobj & _)].
    unfold checked in Hobj |- *. rewrite Hc, Hmin, Ht in Hobj |- *. simpl in Hobj |- *.
    split; [done|]. unfold object_at. by rewrite Hobj, lookup_insert_eq.
  - intros cs Hlen Hfail.
    eapply returns_mono; [apply (record_all_returns _ _ _ _ _ _ Hl); done|].
    cbv beta. intros _ cb' Ho.
    pose proof (counted_all config cs _ 0 0 ltac:(done) ltac:(done)
                  ltac:(rewrite Hlen; simpl; lia) (counted_fresh config))
      as (Ht & Hf & _ & Hs).
    rewrite Hlen, Hfail in *.
    set (st := foldl _ _ _) in *. simpl in Ht, Hf, Hs.
    eexists. split; [exact Ho|]. repeat split; try done.
    intros Hc now now_open.
    eapply returns_mono.
    { apply _can_proceed_async_returns; [exact Ho | intros _ _; lia]. }
    cbv beta. intros ok cb'' [-> (Hobj & _)].
    unfold checked in Hobj |- *. rewrite Hc, Hmin, Ht, Hf in Hobj |- *.
    simpl in Hobj |- *.
    split; [done|]. eexists. split.
    { unfold object_at. by rewrite Hobj, lookup_insert_eq. }
    done.
Qed.

Lemma closed_breaker_opens_on_count_or_rate_witness :
  let cb := mkCB None ∅ {[ 0%nat := CircuitBreakerStats_new CLOSED ]} [] in
  returns (record_all "risk" 0%nat (config_for "risk")
             [Failure 0 1 1; Failure 0 2 2; Failure 0 3 3])
    (fun _ cb' => exists st,
       object_at 0%nat cb' = Some st /\
       total_requests st = 3 /\ failed_requests st = 3 /\
       state st = CLOSED /\
       (state st = CLOSED -> forall now now_open,
          returns (_can_proceed_async "risk" 0%nat (config_for "risk") now now_open)
            (fun ok cb'' => ok = true /\ object_at 0%nat cb'' = Some st) cb')) cb.
Proof.
  intros cb.
  exact (proj1 (closed_breaker_opens_on_count_or_rate "risk" 0%nat (config_for "risk") cb
                  eq_refl eq_refl ltac:(vm_compute; discriminate))
           (Failure 0 1 1) (Failure 0 2 2) (Failure 0 3 3) eq_refl eq_refl eq_refl).
Defined.

Lemma decayed_fields config s :
  state (decayed config s) = state s /\
  success_count (decayed config s) = success_count s /\
  failure_count (decayed config s) = failure_count s /\
  next_attempt_time (decayed config s) = next_attempt_time s.
Proof. unfold decayed. by destruct (_ <? _). Qed.

Lemma averaged_fields response_time s :
  state (averaged response_time s) = state s /\
  success_count (averaged response_time s) = success_count s /\
  failure_count (averaged response_time s) = failure_count s /\
  next_attempt_time (averaged response_time s) = next_attempt_time s.
Proof. unfold averaged. by destruct (_ =? _). Qed.

Lemma failure_recorded_opens config response_time now now_open s :
  state s = HALF_OPEN \/
  (state s = CLOSED /\ failure_threshold config <= failure_count s + 1) ->
  let s' := failure_recorded config response_time now now_open s in
  state s' = OPEN /\
  next_attempt_time s' = Some (now_open + timedelta_seconds (timeout config)).
Proof.
  intros Hs. cbv zeta. unfold failure_recorded. cbv zeta.
  match goal with |- context [averaged ?r ?x] =>
    destruct (averaged_fields r x) as (A1 & A2 & A3 & A4);
    set (s1 := averaged r x) in * end.
  simpl in A1, A3.
  match goal with |- context [decayed config ?x] =>
    destruct (decayed_fields config x) as (D1 & D2 & D3 & D4);
    set (s3 := decayed config x) in * end.
  destruct Hs as [Hs | [Hs Hthr]]; rewrite A1, Hs in D1, D4.
  - simpl in D1, D4. done.
  - rewrite A3 in D1, D4.
    destruct (Z.leb_spec (failure_threshold config) (failure_count s + 1)); [|lia].
    simpl in D1, D4. done.
Qed.

(** *** C2: from Open to HalfOpen *)

Lemma can_proceed_run service_name config now cb :
  can_proceed service_name config now cb =
  (Ok (match _circuits cb !! service_name with
       | None => true
       | Some l =>
           let s := default (CircuitBreakerStats_new CLOSED) (objects cb !! l) in
           match state s with
           | CLOSED => true
           | OPEN => match next_attempt_time s with
                     | Some t => t <=? now
                     | None => false
                     end
           | HALF_OPEN =>
               success_count s <? success_threshold (default (config_for service_name) config)
           end
       end), cb).
Proof.
  unfold can_proceed, bind, gets, read, ret. simpl.
  destruct (_circuits cb !! service_name) as [l|]; [|done]. simpl.
  destruct (state _); [done | | done].
  destruct (next_attempt_time _) as [t|]; [|done].
  by destruct (t <=? now).
Qed.

(** C2, as stated, fails: a breaker opened at time 0 with a timeout of 30 s
    lets every synchronous check through from 30 s on, not one only, and
    stays Open; and after the asynchronous check has moved it to HalfOpen, a
    second check is let through before any outcome is recorded. *)
Lemma more_than_one_probe :
  let opened_at_0 :=
    exec (record_failure "trading" 0 0)
      (exec (record_failure "trading" 0 0)
         (exec (record_failure "trading" 0 0) (CircuitBreaker_new None))) in
  state <$> cached "trading" opened_at_0 = Some OPEN /\
  next_attempt_time <$> cached "trading" opened_at_0 = Some (Some 30000000) /\
  can_proceed "trading" None 31000000 opened_at_0 = (Ok true, opened_at_0) /\
  can_proceed "trading" None 32000000 opened_at_0 = (Ok true, opened_at_0) /\
  let probing :=
    exec (_can_proceed_async "trading" 0%nat (config_for "trading") 31000000 31000000)
      opened_at_0 in
  _circuits opened_at_0 !! "trading" = Some 0%nat /\
  fst (_can_proceed_async "trading" 0%nat (config_for "trading") 31000000 31000000
         opened_at_0) = Ok true /\
  state <$> cached "trading" probing = Some HALF_OPEN /\
  fst (_can_proceed_async "trading" 0%nat (config_for "trading") 32000000 32000000
         probing) = Ok true.
Proof. vm_compute. repeat split. Qed.

(** C2, amended.  For a stats object opened at [transition_time] with
    timeout [timeout config]: [_can_proceed_async] on that object answers
    false and leaves the stats as they are at every time before
    [transition_time + timeout], and from that instant on answers true
    after moving the stats to HalfOpen with both counters at 0 and no
    [next_attempt_time]; in HalfOpen a further check, before any outcome
    is recorded, is let through as well whenever [success_threshold >= 1].
    The synchronous [can_proceed] answers from the stats cached for the
    service and changes nothing: when the opened object is the cached one,
    it answers false before [transition_time + timeout] and true on every
    call from then on, the stats staying Open.  The opened object is the
    cached one whenever the circuit is opened by a recorded failure -- one
    recorded in HalfOpen, or in Closed when it brings [failure_count] to
    [failure_threshold] --, with or without a store client
    ([_record_failure] saves the object, which caches it): [can_proceed]
    then answers false before [now_open + timeout] and true from then on;
    and without a store client [_get_circuit_stats] returns the object
    cached for the service itself, not a copy. *)
Theorem open_until_timeout_then_half_open service_name l config cb st transition_time :
  objects cb !! l = Some st ->
  returns (_transition_to_open service_name l config transition_time)
    (fun _ cb1 =>
       let deadline := transition_time + timedelta_seconds (timeout config) in
       (state <$> object_at l cb1 = Some OPEN) /\
       (forall config' now now_open, now < deadline ->
          returns (_can_proceed_async service_name l config' now now_open)
            (fun ok cb2 => ok = false /\ object_at l cb2 = object_at l cb1) cb1 /\
          (_circuits cb !! service_name = Some l ->
           can_proceed service_name (Some config') now cb1 = (Ok false, cb1))) /\
       (forall config' now now_open, deadline <= now ->
          (_circuits cb !! service_name = Some l ->
           can_proceed service_name (Some config') now cb1 = (Ok true, cb1)) /\
          returns (_can_proceed_async service_name l config' now now_open)
            (fun ok cb2 => ok = true /\ exists st2,
               object_at l cb2 = Some st2 /\
               state st2 = HALF_OPEN /\
               success_count st2 = 0 /\ failure_count st2 = 0 /\
               next_attempt_time st2 = None /\
               forall now' now_open',
                 returns (_can_proceed_async service_name l config' now' now_open')
                   (fun ok' cb3 => ok' = (0 <? success_threshold config') /\
                                   object_at l cb3 = Some st2) cb2) cb1)) cb /\
  (forall response_time now now_open,
     0 <= total_requests st ->
     state st = HALF_OPEN \/
     (state st = CLOSED /\ failure_threshold config <= failure_count st + 1) ->
     returns (_record_failure service_name l config response_time now now_open)
       (fun _ cb1 =>
          let deadline := now_open + timedelta_seconds (timeout config) in
          _circuits cb1 !! service_name = Some l /\
          state <$> object_at l cb1 = Some OPEN /\
          forall config' now',
            can_proceed service_name config' now' cb1
            = (Ok (deadline <=? now'), cb1)) cb) /\
  (redis_client cb = None -> _circuits cb !! service_name = Some l ->
   _get_circuit_stats service_name cb = (Ok l, cb)).
Proof.
  intros Hl. split; [|split].
  - eapply returns_mono;
      [apply _transition_to_open_returns, at_object_init, Hl|].
    cbv beta. intros _ cb1 (Ho & Hcs & _). cbv zeta.
    assert (objects cb1 !! l = Some (opened config transition_time st)) as Hl1.
    { by rewrite Ho, lookup_insert_eq. }
    split; [unfold object_at; by rewrite Hl1|].
    split.
    + intros config' now now_open Hlt. split.
      * eapply returns_mono; [by apply _can_proceed_async_returns|].
        cbv beta. intros ok cb2 [-> (Ho2 & _)].
        unfold checked in Ho2 |- *. simpl in Ho2 |- *.
        destruct (Z.leb_spec (transition_time + timedelta_seconds (timeout config)) now);
          [lia|]. simpl in Ho2 |- *.
        split; [done|]. unfold object_at. by rewrite Ho2, lookup_insert_eq.
      * intros Hc. rewrite can_proceed_run, Hcs, Hc, Hl1. simpl.
        by destruct (Z.leb_spec (transition_time + timedelta_seconds (timeout config)) now);
          [lia|].
    + intros config' now now_open Hle. split.
      * intros Hc. rewrite can_proceed_run, Hcs, Hc, Hl1. simpl.
        by destruct (Z.leb_spec (transition_time + timedelta_seconds (timeout config)) now);
          [|lia].
      * eapply returns_mono; [by apply _can_proceed_async_returns|].
        cbv beta. intros ok cb2 [-> (Ho2 & _)].
        unfold checked in Ho2 |- *. simpl in Ho2 |- *.
        destruct (Z.leb_spec (transition_time + timedelta_seconds (timeout config)) now);
          [|lia]. simpl in Ho2 |- *.
        split; [done|]. eexists. split.
        { unfold object_at. by rewrite Ho2, lookup_insert_eq. }
        repeat split.
        intros now' now_open'.
        eapply returns_mono.
        { apply _can_proceed_async_returns; [by rewrite Ho2, lookup_insert_eq | done]. }
        cbv beta. intros ok' cb3 [-> (Ho3 & _)].
        unfold checked in Ho3 |- *. simpl in Ho3 |- *.
        split; [done|]. unfold object_at. by rewrite Ho3, lookup_insert_eq.
  - intros response_time now now_open Hne Hst.
    eapply returns_mono; [apply _record_failure_returns; [done | lia]|].
    cbv beta. intros _ cb1 [Ho Hc]. cbv zeta.
    destruct (failure_recorded_opens config response_time now now_open st Hst)
      as [Hopen Hnext].
    split; [by rewrite Hc, lookup_insert_eq|].
    split; [unfold object_at; rewrite Ho, lookup_insert_eq; simpl; by rewrite Hopen|].
    intros config' now'.
    rewrite can_proceed_run, Hc, lookup_insert_eq, Ho, lookup_insert_eq. simpl.
    by rewrite Hopen, Hnext.
  - intros Hn Hc. destruct cb as [rc ci ob lg]. simpl in *. subst rc.
    unfold _get_circuit_stats, bind, try_except, gets, ret. simpl. by rewrite Hc.
Qed.

Lemma open_until_timeout_then_half_open_witness :
  let st := mkStats HALF_OPEN 0 1 (Some 0) (Some 40000000) 4 3 0 0 None in
  let cb := mkCB (Some (Redis.healthy ∅)) ∅ {[ 0%nat := st ]} [] in
  returns (_record_failure "risk" 0%nat (config_for "risk") 0 50000000 50000000)
    (fun _ cb1 =>
       _circuits cb1 !! "risk" = Some 0%nat /\
       state <$> object_at 0%nat cb1 = Some OPEN /\
       can_proceed "risk" None 109999999 cb1 = (Ok false, cb1) /\
       can_proceed "risk" None 110000000 cb1 = (Ok true, cb1)) cb.
Proof.
  intros st cb.
  eapply returns_mono.
  - exact (proj1 (proj2 (open_until_timeout_then_half_open "risk" 0%nat (config_for "risk")
                           cb st 0 eq_refl))
             0%Q 50000000 50000000 ltac:(vm_compute; discriminate) (or_introl eq_refl)).
  - cbv beta zeta. intros _ cb1 (Hc & Hs & Hcan). split; [exact Hc|]. split; [exact Hs|].
    split.
    + exact (Hcan None 109999999).
    + exact (Hcan None 110000000).
Defined.

(** On a breaker backed by a store, five failures and five successes of
    "compliance" (failure threshold 10) leave the circuit Closed, and the
    next protected call is rejected by the rate rule, which opens the copy
    of the stats read from the store: the stats cached for the service are
    still Closed, and [can_proceed] answers from them. *)
Lemma rate_trip_leaves_the_cache_closed :
  let record cb n :=
    exec (record_success "compliance" n) (exec (record_failure "compliance" n n) cb) in
  let cb := record (record (record (record (record
              (CircuitBreaker_new (Some (Redis.healthy ∅))) 1) 2) 3) 4) 5 in
  let t := mkReadings 6000000 6000000 6000000 6000000 6000000 6000000 0 in
  fst (call_with_circuit_breaker "compliance" (Returns 0) None t cb)
  = Raise (CircuitBreakerException "compliance" 120) /\
  let cb' := exec (call_with_circuit_breaker "compliance" (Returns 0) None t) cb in
  state <$> cached "compliance" cb' = Some CLOSED /\
  fst (can_proceed "compliance" None 7000000 cb') = Ok true.
Proof. vm_compute. repeat split. Qed.

(** *** C6: HalfOpen *)

Lemma success_recorded_half_open config response_time now s :
  state s = HALF_OPEN ->
  let s' := success_recorded config response_time now s in
  if success_threshold config <=? success_count s + 1
  then state s' = CLOSED /\ success_count s' = 0 /\ failure_count s' = 0 /\
       next_attempt_time s' = None
  else state s' = HALF_OPEN /\ success_count s' = success_count s + 1.
Proof.
  intros Hs. cbv zeta. unfold success_recorded. cbv zeta.
  match goal with |- context [averaged ?r ?x] =>
    destruct (averaged_fields r x) as (A1 & A2 & A3 & A4);
    set (s1 := averaged r x) in * end.
  simpl in A1, A2, A3, A4.
  match goal with |- context [decayed config ?x] =>
    destruct (decayed_fields config x) as (D1 & D2 & D3 & D4);
    set (s3 := decayed config x) in * end.
  assert (forall b : bool, state (if b then s1 else set_slow_requests (slow_requests s1 + 1) s1)
                           = HALF_OPEN) as E1 by (intros []; simpl; congruence).
  assert (forall b : bool,
            success_count (if b then s1 else set_slow_requests (slow_requests s1 + 1) s1)
            = success_count s + 1) as E2 by (intros []; simpl; congruence).
  rewrite E1, E2 in D1, D2, D3, D4.
  destruct (success_threshold config <=? success_count s + 1); simpl in D1, D2, D3, D4.
  - done.
  - rewrite E1 in D1. rewrite E2 in D2. done.
Qed.

Lemma failure_recorded_half_open config response_time now now_open s :
  state s = HALF_OPEN ->
  let s' := failure_recorded config response_time now now_open s in
  state s' = OPEN /\
  next_attempt_time s' = Some (now_open + timedelta_seconds (timeout config)).
Proof.
  intros Hs. cbv zeta. unfold failure_recorded. cbv zeta.
  match goal with |- context [averaged ?r ?x] =>
    destruct (averaged_fields r x) as (A1 & A2 & A3 & A4);
    set (s1 := averaged r x) in * end.
  simpl in A1.
  match goal with |- context [decayed config ?x] =>
    destruct (decayed_fields config x) as (D1 & D2 & D3 & D4);
    set (s3 := decayed config x) in * end.
  rewrite A1, Hs in D1, D4. simpl in D1, D4. done.
Qed.

Lemma half_open_after_successes config cs : forall s,
  Forall (fun c => is_failure c = false) cs ->
  state s = HALF_OPEN ->
  success_count s + Z.of_nat (length cs) < success_threshold config ->
  let s' := foldl (fun s c => recorded config c s) s cs in
  state s' = HALF_OPEN /\ success_count s' = success_count s + Z.of_nat (length cs).
Proof.
  induction cs as [|c cs IH]; intros s Hall Hs Hlt; cbv zeta.
  - simpl. split; [done | lia].
  - inversion Hall as [|? ? Hc Hcs]; subst. simpl length in Hlt. simpl foldl.
    destruct c as [rt now|]; [|done]. simpl recorded.
    pose proof (success_recorded_half_open config rt now s Hs) as Hrec.
    cbv zeta in Hrec.
    destruct (Z.leb_spec (success_threshold config) (success_count s + 1)); [lia|].
    destruct Hrec as [Hs' Hc'].
    destruct (IH _ Hcs Hs' ltac:(lia)) as [-> ->].
    split; [done|]. simpl length. lia.
Qed.

(** C6.  With [success_threshold = 3], for a breaker that has just entered
    HalfOpen (no success counted yet): the first and the second recorded
    success leave it HalfOpen and the third one closes it, with the success
    and failure counters back to 0; and a failure recorded after fewer than
    three successes reopens it at once, with
    [next_attempt_time = now + timeout], [now] being the clock reading of
    the transition. *)
Theorem half_open_exactness service_name l config cb st :
  objects cb !! l = Some st ->
  state st = HALF_OPEN ->
  success_count st = 0 ->
  0 <= total_requests st ->
  success_threshold config = 3 ->
  (forall rt1 t1 rt2 t2 rt3 t3,
     returns (_record_success service_name l config rt1 t1)
       (fun _ cb1 =>
          state <$> object_at l cb1 = Some HALF_OPEN /\
          returns (_record_success service_name l config rt2 t2)
            (fun _ cb2 =>
               state <$> object_at l cb2 = Some HALF_OPEN /\
               returns (_record_success service_name l config rt3 t3)
                 (fun _ cb3 => exists st3,
                    object_at l cb3 = Some st3 /\
                    state st3 = CLOSED /\
                    success_count st3 = 0 /\ failure_count st3 = 0) cb2) cb1) cb) /\
  (forall successes rt now now_open,
     Forall (fun c => is_failure c = false) successes ->
     (length successes < 3)%nat ->
     returns (record_all service_name l config (successes ++ [Failure rt now now_open]))
       (fun _ cb' => exists st',
          object_at l cb' = Some st' /\
          state st' = OPEN /\
          next_attempt_time st' =
            Some (now_open + timedelta_seconds (timeout config))) cb).
Proof.
  intros Hl Hs Hc Ht Hthr. split.
  - intros rt1 t1 rt2 t2 rt3 t3.
    eapply returns_mono; [apply _record_success_returns; [exact Hl | lia]|].
    cbv beta. intros _ cb1 [Ho1 _]%recorded_at_object.
    pose proof (success_recorded_half_open config rt1 t1 st Hs) as H1.
    pose proof (recorded_total_nonneg config (Success rt1 t1) st Ht) as Ht1.
    simpl in Ht1. cbv zeta in H1. rewrite Hthr, Hc in H1. simpl in H1.
    destruct H1 as [Hs1 Hc1].
    split; [by rewrite Ho1; simpl; rewrite Hs1|].
    eapply returns_mono; [apply _record_success_returns; [exact Ho1 | lia]|].
    cbv beta. intros _ cb2 [Ho2 _]%recorded_at_object.
    pose proof (success_recorded_half_open config rt2 t2 _ Hs1) as H2.
    pose proof (recorded_total_nonneg config (Success rt2 t2) _ Ht1) as Ht2.
    simpl in Ht2. cbv zeta in H2. rewrite Hthr, Hc1 in H2. simpl in H2.
    destruct H2 as [Hs2 Hc2].
    split; [by rewrite Ho2; simpl; rewrite Hs2|].
    eapply returns_mono; [apply _record_success_returns; [exact Ho2 | lia]|].
    cbv beta. intros _ cb3 [Ho3 _]%recorded_at_object.
    pose proof (success_recorded_half_open config rt3 t3 _ Hs2) as H3.
    cbv zeta in H3. rewrite Hthr, Hc2 in H3. simpl in H3.
    destruct H3 as (Hs3 & Hc3 & Hf3 & _).
    eexists. split; [exact Ho3|]. done.
  - intros successes rt now now_open Hall Hlen.
    eapply returns_mono; [by apply (record_all_returns _ _ _ _ _ _ Hl)|].
    cbv beta. intros _ cb' Ho. rewrite foldl_app in Ho. simpl in Ho.
    destruct (half_open_after_successes config successes st Hall Hs ltac:(lia))
      as [Hs' _].
    destruct (failure_recorded_half_open config rt now now_open _ Hs') as [Hopen Hnext].
    eexists. split; [exact Ho|]. done.
Qed.

Lemma half_open_exactness_witness :
  let st := mkStats HALF_OPEN 0 0 (Some 5) None 3 3 0 0%Q None in
  let cb := mkCB None {[ "risk" := 0%nat ]} {[ 0%nat := st ]} [] in
  returns (record_all "risk" 0%nat (config_for "risk")
             ([Success 0 1; Success 0 2] ++ [Failure 0 3 4]))
    (fun _ cb' => exists st',
       object_at 0%nat cb' = Some st' /\
       state st' = OPEN /\
       next_attempt_time st' = Some (4 + timedelta_seconds (timeout (config_for "risk")))) cb.
Proof.
  intros st cb.
  exact (proj2 (half_open_exactness "risk" 0%nat (config_for "risk") cb st
                  eq_refl eq_refl eq_refl ltac:(vm_compute; discriminate) eq_refl)
           [Success 0 1; Success 0 2] 0%Q 3 4
           ltac:(repeat constructor) ltac:(simpl; lia)).
Defined.

(** *** C10: the synchronous check *)

(** C10.  [can_proceed] returns and leaves the circuit breaker exactly as
    it found it (the cache, the stats objects, the store and the log), and
    answers true for a service that has no cached stats. *)
Theorem can_proceed_reads_only service_name config now cb :
  (exists answer, can_proceed service_name config now cb = (Ok answer, cb)) /\
  (_circuits cb !! service_name = None ->
   can_proceed service_name config now cb = (Ok true, cb)).
Proof.
  rewrite can_proceed_run. split; [by eexists|].
  by intros ->.
Qed.

Lemma can_proceed_reads_only_witness :
  can_proceed "trading" None 0 (CircuitBreaker_new None)
  = (Ok true, CircuitBreaker_new None).
Proof.
  exact (proj2 (can_proceed_reads_only "trading" None 0 (CircuitBreaker_new None))
           eq_refl).
Defined.

(** *** C7 and C9: what is persisted *)

(** C7 fails on the code.  The circuit of "trading" is opened, then a call
    made 31 s later goes through as the HalfOpen probe and succeeds, then a
    success is recorded: the stats cached for the service are HalfOpen with
    the [next_attempt_time] of the time the circuit was Open. *)
Lemma next_attempt_time_survives_half_open :
  let probed :=
    exec (call_with_circuit_breaker "trading" (Returns 0) None
            (mkReadings 31000000 31000000 31000000 31000000 31000000 31000000 0))
      trading_opened in
  let cb := exec (record_success "trading" 32000000) probed in
  state <$> cached "trading" trading_opened = Some OPEN /\
  next_attempt_time <$> cached "trading" trading_opened = Some (Some 30000000) /\
  state <$> cached "trading" probed = Some HALF_OPEN /\
  next_attempt_time <$> cached "trading" probed = Some None /\
  state <$> cached "trading" cb = Some HALF_OPEN /\
  next_attempt_time <$> cached "trading" cb = Some (Some 30000000).
Proof. vm_compute. repeat split. Qed.

(** C9 fails on the code.  After [reset_circuit] on the opened circuit, the
    cached stats are the empty Closed baseline, but the persisted hash
    keeps its [next_attempt_time] and [last_failure_time] fields, and the
    stats that the next operation works on are Closed with the old
    [next_attempt_time]; a second reset changes nothing to that. *)
Lemma reset_keeps_persisted_times :
  let cb := exec (reset_circuit "trading") trading_opened in
  let cb2 := exec (reset_circuit "trading") cb in
  cached "trading" cb = Some (CircuitBreakerStats_new CLOSED) /\
  (persisted "trading" cb ≫= (.!! "next_attempt_time")) = Some (Redis.STime 30000000) /\
  (persisted "trading" cb ≫= (.!! "last_failure_time")) = Some (Redis.STime 0) /\
  state <$> current "trading" cb = Some CLOSED /\
  next_attempt_time <$> current "trading" cb = Some (Some 30000000) /\
  next_attempt_time <$> current "trading" cb2 = Some (Some 30000000).
Proof. vm_compute. repeat split. Qed.
End CircuitBreakerProperties.

Lemma outcome_ret {S A} (a : A) (Q : A -> S -> Prop) E s :
  Q a s -> outcome (ret a) Q E s.
Proof. done. Qed.

Lemma outcome_raise {S A} e (Q : A -> S -> Prop) (E : Exn -> S -> Prop) s :
  E e s -> outcome (raise e) Q E s.
Proof. done. Qed.

Lemma outcome_bind {S A B} (m : M S A) (k : A -> M S B) (Q : B -> S -> Prop) E s :
  outcome m (fun a s' => outcome (k a) Q E s') E s -> outcome (bind m k) Q E s.
Proof. unfold outcome, bind. by destruct (m s) as [[a|e] s']. Qed.

Lemma outcome_try {S A} (body : M S A) handler (Q : A -> S -> Prop) E s :
  outcome body Q (fun e s' => outcome (handler e) Q E s') s ->
  outcome (try_except body handler) Q E s.
Proof. unfold outcome, try_except. by destruct (body s) as [[a|e] s']. Qed.

Lemma outcome_mono {S A} (m : M S A) (P Q : A -> S -> Prop) (E F : Exn -> S -> Prop) s :
  outcome m P E s ->
  (forall a s', P a s' -> Q a s') -> (forall e s', E e s' -> F e s') ->
  outcome m Q F s.
Proof. unfold outcome. destruct (m s) as [[a|e] s']; auto. Qed.

Lemma outcome_returns {S A} (m : M S A) (Q : A -> S -> Prop) s :
  outcome m Q (fun _ _ => False) s -> returns m Q s.
Proof. unfold outcome, returns. by destruct (m s) as [[a|e] s']. Qed.

Module RateLimiterProperties.
Import rate_limiter.

Lemma no_raise_after rl0 rl : no_raise rl0 rl -> after_raise rl0 rl.
Proof. by intros (? & ? & ? & ?). Qed.

Lemma redis_outcome {A} (cmd : Redis.Command A) rl0 rl :
  no_raise rl0 rl ->
  outcome (redis cmd) (fun _ rl' => no_raise rl0 rl') (fun _ rl' => after_raise rl0 rl') rl.
Proof.
  intros (Hc & Hl & [c Hr] & Hn). unfold outcome, redis, raised_of in *.
  rewrite Hr in *. unfold Redis.call, Redis.deliver.
  destruct (Redis.faults c) as [|[] fs]; simpl;
    try destruct (fst (cmd (Redis.data c))); simpl;
    unfold no_raise, after_raise, raised_of; simpl; eauto 10.
Qed.

Lemma py_div_outcome a b rl0 rl :
  no_raise rl0 rl ->
  outcome (py_div a b) (fun _ rl' => no_raise rl0 rl') (fun _ rl' => after_raise rl0 rl') rl.
Proof.
  intros H. unfold py_div. destruct (Qeq_bool b 0); [|done].
  by apply outcome_raise, no_raise_after.
Qed.

Lemma lift_outcome {A} (r : Result A) rl0 rl :
  no_raise rl0 rl ->
  outcome (lift r) (fun _ rl' => no_raise rl0 rl') (fun _ rl' => after_raise rl0 rl') rl.
Proof. intros H. destruct r; [done|]. by apply no_raise_after. Qed.

Lemma ret_outcome {A} (a : A) rl0 rl :
  no_raise rl0 rl ->
  outcome (ret a) (fun _ rl' => no_raise rl0 rl') (fun _ rl' => after_raise rl0 rl') rl.
Proof. done. Qed.

Lemma gets_outcome {A} (f : RateLimiter -> A) rl (Q : A -> RateLimiter -> Prop) E :
  Q (f rl) rl -> outcome (gets f) Q E rl.
Proof. done. Qed.

(** The handler of a check: the fail-open result and an error in the log. *)
Lemma fail_open_outcome ev identifier (r : RateLimitResult) rl0 rl :
  after_raise rl0 rl ->
  outcome (log ERROR ev identifier ;;; ret r)
    (fun r' rl' => r' = r /\ _local_cache rl' = _local_cache rl0 /\
                   logs rl' = logs rl0 ++ [mkLog ERROR ev identifier])
    (fun _ _ => False) rl.
Proof. intros (Hc & Hl & _). unfold outcome, bind, log, modify, ret. simpl. by rewrite Hl. Qed.

Ltac store_step :=
  eapply outcome_bind, outcome_mono;
  [ first [ eapply redis_outcome; eassumption
          | eapply py_div_outcome; eassumption
          | eapply lift_outcome; eassumption ]
  | cbv beta; intros ? ? ?
  | cbv beta; intros ? ? ?; assumption ].

Ltac store_done := first [ eapply ret_outcome; eassumption ].

Lemma no_raise_refl rl : is_Some (redis_client rl) -> no_raise rl rl.
Proof. by intros H. Qed.

Lemma absorbed_no_raise identifier fail_open rl0 r rl :
  no_raise rl0 rl -> absorbed identifier fail_open rl0 r rl.
Proof. intros (Hc & _ & _ & Hn). split; [done|]. lia. Qed.

Lemma absorbed_handler ev identifier fail_open rl0 rl :
  after_raise rl0 rl ->
  outcome (log ERROR ev identifier ;;; ret fail_open)
    (absorbed identifier fail_open rl0) (fun _ _ => False) rl.
Proof.
  intros H. eapply outcome_mono; [by apply fail_open_outcome | | done].
  cbv beta. intros r rl' (-> & Hc & Hl). split; [done|]. eauto.
Qed.

Ltac check_with_store Hc :=
  apply outcome_returns, outcome_try;
  eapply outcome_mono with
    (P := fun _ rl' => no_raise _ rl') (E := fun _ rl' => after_raise _ rl');
  [ eapply outcome_bind, gets_outcome; rewrite Hc
  | cbv beta; intros ? ? ?; by apply absorbed_no_raise
  | cbv beta; intros ? ? ?; by apply absorbed_handler ].

Lemma _sliding_window_check_absorbs identifier config t rl :
  is_Some (redis_client rl) ->
  returns (_sliding_window_check identifier config t)
    (absorbed identifier
       (mkResult true (requests_per_minute config) (at_fallback t + 60) None) rl) rl.
Proof.
  intros [c Hc]. pose proof (no_raise_refl rl ltac:(by rewrite Hc)) as H0.
  unfold _sliding_window_check. check_with_store Hc.
  do 2 store_step. destruct (_ <=? _).
  - store_step. store_done.
  - store_step. store_done.
Qed.

Lemma _fixed_window_check_absorbs identifier config t rl :
  is_Some (redis_client rl) ->
  returns (_fixed_window_check identifier config t)
    (absorbed identifier
       (mkResult true (requests_per_minute config) (at_entry t + 60) None) rl) rl.
Proof.
  intros [c Hc]. pose proof (no_raise_refl rl ltac:(by rewrite Hc)) as H0.
  unfold _fixed_window_check. check_with_store Hc.
  do 2 store_step. destruct (_ <=? _).
  - store_done.
  - store_step. store_done.
Qed.

Lemma _token_bucket_check_absorbs identifier config t rl :
  is_Some (redis_client rl) ->
  returns (_token_bucket_check identifier config t)
    (absorbed identifier
       (mkResult true (bucket_capacity config) (at_fallback t + 60) None) rl) rl.
Proof.
  intros [c Hc]. pose proof (no_raise_refl rl ltac:(by rewrite Hc)) as H0.
  unfold _token_bucket_check. check_with_store Hc.
  store_step. destruct a as [[flag remaining] ?]. destruct (_ =? _).
  - store_step. store_done.
  - store_step. store_done.
Qed.

Lemma _leaky_bucket_check_absorbs identifier config t rl :
  is_Some (redis_client rl) ->
  returns (_leaky_bucket_check identifier config t)
    (absorbed identifier
       (mkResult true (bucket_capacity config) (at_fallback t + 60) None) rl) rl.
Proof.
  intros [c Hc]. pose proof (no_raise_refl rl ltac:(by rewrite Hc)) as H0.
  unfold _leaky_bucket_check. check_with_store Hc.
  store_step. destruct a as [[flag volume] ?]. destruct (_ =? _).
  - store_step. store_done.
  - store_step. store_done.
Qed.

(** *** C3: store errors *)

(** C3, as stated, fails.  The identifier has used up its 5 requests of
    the minute in the local cache and the first store call of the check is
    refused: the check is allowed with [requests_remaining = 5] and the
    local cache is left as it was, whereas the in-process approximation of
    the sliding window, run on the same state, denies the request. *)
Lemma store_error_does_not_consult_local_cache :
  let config := mkConfig SLIDING_WINDOW 5 100 1000 5 100 1 (5 # 10) in
  let rl := mkRL (Some (Redis.mkClient ∅ [Redis.Refused] 0))
              {[ "u" := mkCache [0; 0; 0; 0; 0]%Q 100 0 0 0 ]} [] in
  let t := mkReadings 1 1 1 in
  let '(r, rl') := check_rate_limit "u" (Some config) "basic" t rl in
  let '(r_local, _) := _local_cache_check "u" config "sliding" 1 1 rl in
  (allowed <$> r_ok r) = Some true /\
  (requests_remaining <$> r_ok r) = Some 5 /\
  _local_cache rl' = _local_cache rl /\
  level <$> logs rl' = [ERROR] /\
  (allowed <$> r_ok r_local) = Some false /\
  (retry_after <$> r_ok r_local) = Some (Some 59).
Proof. vm_compute. repeat split. Qed.

Lemma returns_exec {S A} (m : M S A) (P : A -> S -> Prop) s :
  returns m P s -> returns m (fun a s' => P a s' /\ s' = exec m s) s.
Proof. unfold returns, exec. by destruct (m s) as [[a|e] s']. Qed.

Ltac first_call_fails Hc Hf :=
  unfold exec, try_except, bind, gets, redis, raised_of, Redis.call;
  repeat (rewrite Hc; simpl); rewrite Hf;
  match goal with f : Redis.Fault |- _ => destruct f end;
  simpl; rewrite ?Hc; simpl; try done; lia.

Lemma first_store_call_fails identifier config user_tier t rl c f fs :
  redis_client rl = Some c ->
  Redis.faults c = f :: fs -> f <> Redis.Reply ->
  (raised_of rl <
   raised_of (exec (check_rate_limit identifier (Some config) user_tier t) rl))%nat.
Proof.
  intros Hc Hf Hne. unfold check_rate_limit. simpl.
  destruct (strategy config).
  - unfold _fixed_window_check. first_call_fails Hc Hf.
  - unfold _sliding_window_check. first_call_fails Hc Hf.
  - unfold _token_bucket_check. first_call_fails Hc Hf.
  - unfold _leaky_bucket_check. first_call_fails Hc Hf.
Qed.

(** C3, amended.  When the limiter has a store client, a check never
    raises and never touches the local cache; and when a store call of the
    check raises (an error reply, a lost reply, a refused call), the
    result is allowed, with [requests_remaining] at the configured limit
    and no [retry_after], and one record is logged at ERROR level.  A
    check whose first store call fails is such a check. *)
Theorem store_errors_fail_open identifier config user_tier t rl c :
  redis_client rl = Some c ->
  returns (check_rate_limit identifier (Some config) user_tier t)
    (fun r rl' =>
       _local_cache rl' = _local_cache rl /\
       ((raised_of rl < raised_of rl')%nat ->
        allowed r = true /\ requests_remaining r = limit config /\
        retry_after r = None /\
        exists ev, logs rl' = logs rl ++ [mkLog ERROR ev identifier]) /\
       ((exists f fs, Redis.faults c = f :: fs /\ f <> Redis.Reply) ->
        (raised_of rl < raised_of rl')%nat)) rl.
Proof.
  intros Hc.
  assert (is_Some (redis_client rl)) as Hs by by rewrite Hc.
  assert (exists fail_open,
            returns (check_rate_limit identifier (Some config) user_tier t)
              (absorbed identifier fail_open rl) rl /\
            allowed fail_open = true /\ requests_remaining fail_open = limit config /\
            retry_after fail_open = None) as (fo & Hm & H1 & H2 & H3).
  { unfold check_rate_limit, limit. simpl. destruct (strategy config); eexists.
    - split; [by apply _fixed_window_check_absorbs | done].
    - split; [by apply _sliding_window_check_absorbs | done].
    - split; [by apply _token_bucket_check_absorbs | done].
    - split; [by apply _leaky_bucket_check_absorbs | done]. }
  eapply returns_mono; [apply returns_exec, Hm|].
  cbv beta. intros r rl' [[Hcache Hr] ->]. split; [done|]. split.
  - intros Hlt. destruct (Hr Hlt) as [-> Hlog]. done.
  - intros (f & fs & Hf & Hne). by eapply first_store_call_fails.
Qed.

Lemma store_errors_fail_open_witness :
  let config := mkConfig TOKEN_BUCKET 5 100 1000 5 100 1 (5 # 10) in
  let rl := mkRL (Some (Redis.mkClient ∅ [Redis.Lost] 0)) ∅ [] in
  returns (check_rate_limit "u" (Some config) "basic" (mkReadings 1 1 1))
    (fun r rl' =>
       _local_cache rl' = ∅ /\
       ((0 < raised_of rl')%nat ->
        allowed r = true /\ requests_remaining r = 100 /\
        retry_after r = None /\
        exists ev, logs rl' = [] ++ [mkLog ERROR ev "u"]) /\
       ((exists f fs, [Redis.Lost] = f :: fs /\ f <> Redis.Reply) ->
        (0 < raised_of rl')%nat)) rl.
Proof.
  intros config rl.
  exact (store_errors_fail_open "u" config "basic" (mkReadings 1 1 1) rl
           (Redis.mkClient ∅ [Redis.Lost] 0) eq_refl).
Defined.

(** *** C4: the token bucket *)

(** C4, as stated, fails on the local-cache path.  The bucket of "u" is
    empty at time 0; a check half a second later refills it to 1/2 token,
    is denied, and has stored the refilled count and the new timestamp. *)
Lemma denied_local_check_stores_the_refill :
  let config := mkConfig TOKEN_BUCKET 100 1000 10000 20 10 1 (5 # 10) in
  let rl := mkRL None {[ "u" := mkCache [] 0 0 0 0 ]} [] in
  let '(r, rl') := check_rate_limit "u" (Some config) "basic"
                     (mkReadings (1 # 2) (1 # 2) (1 # 2)) rl in
  (allowed <$> r_ok r) = Some false /\
  (tokens <$> _local_cache rl !! "u") = Some 0%Q /\
  (last_refill <$> _local_cache rl !! "u") = Some 0%Q /\
  (tokens <$> _local_cache rl' !! "u") = Some (1 # 2)%Q /\
  (last_refill <$> _local_cache rl' !! "u") = Some (1 # 2)%Q.
Proof. vm_compute. repeat split. Qed.

Lemma valid_rates config :
  RateLimitConfig_valid config = true ->
  Qeq_bool (refill_rate config) 0 = false /\ Qeq_bool (leak_rate config) 0 = false.
Proof.
  unfold RateLimitConfig_valid. rewrite !andb_true_iff.
  intros ((_ & Hr%Qle_bool_iff) & Hl%Qle_bool_iff).
  split.
  - destruct (Qeq_bool _ 0) eqn:E; [|done]. apply Qeq_bool_eq in E.
    rewrite E in Hr. by apply Qle_bool_iff in Hr.
  - destruct (Qeq_bool _ 0) eqn:E; [|done]. apply Qeq_bool_eq in E.
    rewrite E in Hl. by apply Qle_bool_iff in Hl.
Qed.

Lemma refilled_le_capacity config tokens last_refill now :
  (refilled config tokens last_refill now <= inject_Z (bucket_capacity config))%Q.
Proof. apply Q.le_min_l. Qed.

Lemma token_bucket_script_run key capacity rate now d h :
  (d !! key = None /\ h = ∅) \/
  (exists ttl, d !! key = Some (Redis.mkEntry (Redis.VHash h) ttl)) ->
  let count :=
    Qmin capacity
      (default capacity (Redis.tonumber (h !! "tokens")) +
       (now - default now (Redis.tonumber (h !! "last_refill"))) * rate) in
  token_bucket_script key capacity rate now d =
  if Qle_bool 1 count
  then (Ok (1, Redis.reply_integer (count - 1), Redis.reply_integer now),
        <[key := Redis.mkEntry
                   (Redis.VHash (<["tokens" := Redis.SNum (count - 1)]>
                                   (<["last_refill" := Redis.SNum now]> h)))
                   (Some 3600)]> d)
  else (Ok (0, Redis.reply_integer count, Redis.reply_integer now), d).
Proof.
  intros [[Hk ->] | [ttl Hk]]; cbv zeta; unfold token_bucket_script; rewrite Hk;
    by destruct (Qle_bool 1 _).
Qed.

Lemma stored_bucket_cases identifier c :
  (Redis.data c !! token_key identifier = None \/
   exists h ttl, Redis.data c !! token_key identifier
                 = Some (Redis.mkEntry (Redis.VHash h) ttl)) ->
  (Redis.data c !! token_key identifier = None /\ stored_bucket identifier c = ∅) \/
  (exists ttl, Redis.data c !! token_key identifier
               = Some (Redis.mkEntry (Redis.VHash (stored_bucket identifier c)) ttl)).
Proof.
  unfold stored_bucket. intros [Hk | (h & ttl & Hk)]; rewrite Hk; eauto.
Qed.

(** C4, amended.  Under the token-bucket strategy, with a valid
    configuration, the count after refill is
    [min(capacity, tokens + elapsed * refill_rate)], and
    - on the shared-store path, when the store answers: a check that finds
      it >= 1 is allowed and stores that count minus 1 (at most
      [capacity - 1]) with [last_refill = now]; a check that finds it < 1
      is denied and leaves the store as it was;
    - on the local-cache path: the stored count never exceeds the
      capacity; a check that finds the refilled count >= 1 is allowed and
      stores it minus 1; a check that finds it < 1 is denied and stores the
      refilled count; both set [last_refill] to [now]. *)
Theorem token_bucket_check_effect identifier config user_tier t rl :
  strategy config = TOKEN_BUCKET ->
  RateLimitConfig_valid config = true ->
  (forall c,
     redis_client rl = Some c -> Redis.faults c = [] ->
     (Redis.data c !! token_key identifier = None \/
      exists h ttl, Redis.data c !! token_key identifier
                    = Some (Redis.mkEntry (Redis.VHash h) ttl)) ->
     let now := at_entry t in
     let h := stored_bucket identifier c in
     let count :=
       refilled config
         (default (inject_Z (bucket_capacity config)) (Redis.tonumber (h !! "tokens")))
         (default now (Redis.tonumber (h !! "last_refill"))) now in
     returns (check_rate_limit identifier (Some config) user_tier t)
       (fun r rl' => exists c',
          redis_client rl' = Some c' /\
          if Qle_bool 1 count
          then allowed r = true /\
               stored_bucket identifier c' !! "tokens" = Some (Redis.SNum (count - 1)) /\
               stored_bucket identifier c' !! "last_refill" = Some (Redis.SNum now) /\
               (count - 1 <= inject_Z (bucket_capacity config) - 1)%Q
          else allowed r = false /\ requests_remaining r = 0 /\
               Redis.data c' = Redis.data c) rl) /\
  (redis_client rl = None ->
   let now := at_local t in
   let e := default (mkCache [] (inject_Z (bucket_capacity config)) now 0 now)
              (_local_cache rl !! identifier) in
   let count := refilled config (tokens e) (last_refill e) now in
   returns (check_rate_limit identifier (Some config) user_tier t)
     (fun r rl' => exists e',
        _local_cache rl' !! identifier = Some e' /\
        last_refill e' = now /\
        (tokens e' <= inject_Z (bucket_capacity config))%Q /\
        if Qle_bool 1 count
        then allowed r = true /\ tokens e' = (count - 1)%Q
        else allowed r = false /\ tokens e' = count) rl).
Proof.
  intros Hstrat Hvalid. destruct (valid_rates config Hvalid) as [Hrate _].
  unfold check_rate_limit. simpl. rewrite Hstrat. split.
  - intros c Hc Hf Hkey. cbv zeta.
    apply stored_bucket_cases in Hkey.
    pose proof (token_bucket_script_run (token_key identifier)
                  (inject_Z (bucket_capacity config)) (refill_rate config)
                  (at_entry t) (Redis.data c) _ Hkey) as Hrun.
    cbv zeta in Hrun. fold (refilled config
         (default (inject_Z (bucket_capacity config))
            (Redis.tonumber (stored_bucket identifier c !! "tokens")))
         (default (at_entry t)
            (Redis.tonumber (stored_bucket identifier c !! "last_refill")))
         (at_entry t)) in Hrun.
    set (count := refilled _ _ _ _) in *.
    unfold returns, _token_bucket_check, try_except, bind, gets, redis, Redis.call.
    repeat (rewrite Hc; simpl). rewrite Hf, Hrun.
    destruct (Qle_bool 1 count) eqn:E; simpl;
      unfold py_div; rewrite Hrate; simpl.
    + eexists. split; [reflexivity|].
      split; [done|]. unfold stored_bucket. simpl. rewrite lookup_insert_eq.
      rewrite lookup_insert_eq.
      rewrite lookup_insert_ne, lookup_insert_eq by done.
      repeat split.
      pose proof (refilled_le_capacity config
         (default (inject_Z (bucket_capacity config))
            (Redis.tonumber (stored_bucket identifier c !! "tokens")))
         (default (at_entry t)
            (Redis.tonumber (stored_bucket identifier c !! "last_refill")))
         (at_entry t)) as Hle.
      fold count in Hle. lra.
    + eexists. split; [reflexivity|]. done.
  - intros Hc. cbv zeta.
    unfold returns, _token_bucket_check, try_except, bind, gets.
    rewrite Hc. simpl.
    unfold _local_cache_check, bind, gets, set_cache, modify, ret. simpl.
    destruct (_local_cache rl !! identifier) as [e0|] eqn:He; simpl.
    + rewrite He. simpl.
      fold (refilled config (tokens e0) (last_refill e0) (at_local t)).
      set (count := refilled _ _ _ _).
      pose proof (refilled_le_capacity config (tokens e0) (last_refill e0) (at_local t))
        as Hle. fold count in Hle.
      destruct (Qle_bool 1 count) eqn:E; simpl;
        unfold py_div, bind, ret, raise; rewrite Hrate; simpl.
      * eexists. rewrite lookup_insert_eq. split; [reflexivity|]. simpl.
        repeat split. lra.
      * eexists. rewrite lookup_insert_eq. split; [reflexivity|]. simpl.
        repeat split. done.
    + rewrite lookup_insert_eq. simpl.
      fold (refilled config (inject_Z (bucket_capacity config)) (at_local t) (at_local t)).
      set (count := refilled _ _ _ _).
      pose proof (refilled_le_capacity config (inject_Z (bucket_capacity config))
                    (at_local t) (at_local t)) as Hle. fold count in Hle.
      destruct (Qle_bool 1 count) eqn:E; simpl;
        unfold py_div, bind, ret, raise; rewrite Hrate; simpl.
      * eexists. rewrite lookup_insert_eq. split; [reflexivity|]. simpl.
        repeat split. lra.
      * eexists. rewrite lookup_insert_eq. split; [reflexivity|]. simpl.
        repeat split. done.
Qed.

Lemma token_bucket_check_effect_witness :
  let config := mkConfig TOKEN_BUCKET 100 1000 10000 20 10 1 (5 # 10) in
  let rl := mkRL None ∅ [] in
  returns (check_rate_limit "u" (Some config) "basic" (mkReadings 0 0 0))
    (fun r rl' => exists e',
       _local_cache rl' !! "u" = Some e' /\
       last_refill e' = 0%Q /\
       (tokens e' <= 10)%Q /\
       allowed r = true /\ tokens e' = (refilled config 10 0 0 - 1)%Q) rl.
Proof.
  intros config rl.
  exact (proj2 (token_bucket_check_effect "u" config "basic" (mkReadings 0 0 0) rl
                  eq_refl eq_refl) eq_refl).
Defined.

(** *** C5: the sliding window *)

(** C5, as stated, fails.  With [requests_per_minute = 5], five checks in
    the same second (at 0, 0.1, 0.2, 0.3 and 0.4 s) are allowed, and a
    sixth one 59.5 s after the first is denied, inside the window, with
    [retry_after = 0], on the local-cache path and on the shared-store
    path alike.  On the shared-store path, moreover, five checks bearing the
    same timestamp leave [requests_remaining] at 4, 3, 3, 3, 3. *)
Lemma sixth_check_may_get_retry_after_zero :
  let config := mkConfig SLIDING_WINDOW 5 100 1000 5 100 1 (5 # 10) in
  let times := [0; 1 # 10; 2 # 10; 3 # 10; 4 # 10; 119 # 2]%Q in
  let local := fst (check_all "u" config (map at_time times) (RateLimiter_new None)) in
  let store := fst (check_all "u" config (map at_time times)
                      (RateLimiter_new (Some (Redis.healthy ∅)))) in
  let same := fst (check_all "u" config (map at_time [1; 1; 1; 1; 1]%Q)
                     (RateLimiter_new (Some (Redis.healthy ∅)))) in
  (map allowed <$> r_ok local) = Some [true; true; true; true; true; false] /\
  (map requests_remaining <$> r_ok local) = Some [4; 3; 2; 1; 0; 0] /\
  (map retry_after <$> r_ok local) = Some [None; None; None; None; None; Some 0] /\
  (map allowed <$> r_ok store) = Some [true; true; true; true; true; false] /\
  (map retry_after <$> r_ok store) = Some [None; None; None; None; None; Some 0] /\
  (map requests_remaining <$> r_ok same) = Some [4; 3; 3; 3; 3].
Proof. vm_compute. repeat split. Qed.

Lemma recent_requests_kept now (l : list Q) :
  Forall (fun q => (now - q < 60)%Q) l ->
  List.filter (fun req_time => negb (Qle_bool 60 (now - req_time))) l = l.
Proof.
  induction 1 as [|q l Hq _ IH]; [done|]. simpl.
  assert (Qle_bool 60 (now - q) = false) as ->.
  { destruct (Qle_bool 60 (now - q)) eqn:E; [|done].
    apply Qle_bool_iff in E. lra. }
  simpl. by rewrite IH.
Qed.

Lemma local_sliding_allowed identifier config t rl :
  redis_client rl = None ->
  Forall (fun q => (at_local t - q < 60)%Q) (cached_requests identifier rl) ->
  Z.of_nat (length (cached_requests identifier rl)) < requests_per_minute config ->
  returns (_sliding_window_check identifier config t)
    (fun r rl' =>
       allowed r = true /\
       requests_remaining r =
         requests_per_minute config - Z.of_nat (length (cached_requests identifier rl)) - 1 /\
       retry_after r = None /\
       redis_client rl' = None /\
       cached_requests identifier rl' = cached_requests identifier rl ++ [at_local t]) rl.
Proof.
  intros Hc Hall Hlt.
  unfold returns, _sliding_window_check, try_except, bind, gets.
  rewrite Hc. simpl.
  unfold _local_cache_check, bind, gets, set_cache, modify, ret, cached_requests in *.
  simpl.
  destruct (_local_cache rl !! identifier) as [e|] eqn:He; simpl.
  - rewrite He. simpl. rewrite (recent_requests_kept _ _ Hall).
    destruct (Z.leb_spec (requests_per_minute config) (Z.of_nat (length (requests e))));
      [lia|]. simpl.
    rewrite lookup_insert_eq. simpl. rewrite length_app. simpl.
    repeat split; [lia | done].
  - rewrite lookup_insert_eq. simpl.
    destruct (Z.leb_spec (requests_per_minute config) (Z.of_nat 0));
      [simpl in Hlt; lia|]. simpl.
    rewrite lookup_insert_eq. simpl. repeat split; [lia | done].
Qed.

Lemma local_sliding_denied identifier config t rl oldest rest :
  redis_client rl = None ->
  cached_requests identifier rl = oldest :: rest ->
  Forall (fun q => (at_local t - q < 60)%Q) (oldest :: rest) ->
  requests_per_minute config <= Z.of_nat (length (oldest :: rest)) ->
  returns (_sliding_window_check identifier config t)
    (fun r rl' =>
       allowed r = false /\
       requests_remaining r = 0 /\
       retry_after r = Some (py_int (oldest + 60 - at_local t)) /\
       redis_client rl' = None /\
       cached_requests identifier rl' = oldest :: rest) rl.
Proof.
  intros Hc Hreq Hall Hle.
  unfold returns, _sliding_window_check, try_except, bind, gets.
  rewrite Hc. simpl.
  unfold _local_cache_check, bind, gets, set_cache, modify, ret, cached_requests in *.
  simpl.
  destruct (_local_cache rl !! identifier) as [e|] eqn:He; [|done]. simpl.
  rewrite He. simpl. rewrite Hreq, (recent_requests_kept _ _ Hall).
  destruct (Z.leb_spec (requests_per_minute config) (Z.of_nat (length (oldest :: rest))));
    [|lia]. simpl.
  rewrite lookup_insert_eq. done.
Qed.

Lemma unexpired_members_kept (bound : Q) (z : list (Q * Q)) :
  Forall (fun ms => (bound < snd ms)%Q) z ->
  List.filter (fun ms => negb (Qle_bool (snd ms) bound)) z = z.
Proof.
  induction 1 as [|ms z Hq _ IH]; [done|]. simpl.
  assert (Qle_bool (snd ms) bound = false) as ->.
  { destruct (Qle_bool _ _) eqn:E; [|done]. apply Qle_bool_iff in E. lra. }
  simpl. by rewrite IH.
Qed.

Lemma other_members_kept (member : Q) (z : list (Q * Q)) :
  Forall (fun ms => (fst ms < member)%Q) z ->
  List.filter (fun ms => negb (Qeq_bool (fst ms) member)) z = z.
Proof.
  induction 1 as [|ms z Hq _ IH]; [done|]. simpl.
  assert (Qeq_bool (fst ms) member = false) as ->.
  { destruct (Qeq_bool _ _) eqn:E; [|done]. apply Qeq_bool_eq in E. lra. }
  simpl. by rewrite IH.
Qed.

Lemma zinsert_last (member score : Q) (z : list (Q * Q)) :
  Forall (fun ms => (snd ms <= score)%Q) z ->
  Redis.zinsert member score z = z ++ [(member, score)].
Proof.
  induction 1 as [|ms z Hq _ IH]; [done|]. simpl.
  assert (Qle_bool (snd ms) score = true) as -> by by apply Qle_bool_iff.
  by rewrite IH.
Qed.

#[local] Arguments Redis.zremrangebyscore_upto : simpl never.
#[local] Arguments Redis.zcard : simpl never.
#[local] Arguments Redis.zrange_first : simpl never.
#[local] Arguments Redis.pipeline : simpl never.

Lemma zremrangebyscore_unexpired key bound d z ttl :
  d !! key = Some (Redis.mkEntry (Redis.VZSet z) ttl) -> z <> [] ->
  Forall (fun ms => (bound < snd ms)%Q) z ->
  Redis.zremrangebyscore_upto key bound d = (Ok 0, d).
Proof.
  intros Hk Hne Hall. unfold Redis.zremrangebyscore_upto. rewrite Hk.
  rewrite (unexpired_members_kept _ _ Hall). f_equal; [f_equal; lia|].
  destruct z; [done|]. simpl. by apply insert_id.
Qed.

Lemma zcard_zset key d z ttl :
  d !! key = Some (Redis.mkEntry (Redis.VZSet z) ttl) ->
  Redis.zcard key d = (Ok (Z.of_nat (length z)), d).
Proof. intros Hk. unfold Redis.zcard. by rewrite Hk. Qed.

Lemma zrange_first_zset key d z ttl :
  d !! key = Some (Redis.mkEntry (Redis.VZSet z) ttl) ->
  Redis.zrange_first key d = (Ok (take 1 z), d).
Proof. intros Hk. unfold Redis.zrange_first. by rewrite Hk. Qed.

Lemma zadd_expire_zset key now d z ttl :
  d !! key = Some (Redis.mkEntry (Redis.VZSet z) ttl) ->
  Forall (fun ms => (fst ms < now)%Q) z ->
  Forall (fun ms => (snd ms <= now)%Q) z ->
  Redis.pipeline (Redis.zadd key now now) (Redis.expire key 60) d =
  (Ok (1, tt), <[key := Redis.mkEntry (Redis.VZSet (z ++ [(now, now)])) (Some 60)]> d).
Proof.
  intros Hk Hm Hs. unfold Redis.pipeline, Redis.zadd, Redis.expire. rewrite Hk.
  rewrite (other_members_kept _ _ Hm), (zinsert_last _ _ _ Hs).
  rewrite lookup_insert_eq. simpl. rewrite insert_insert_eq.
  f_equal. f_equal. f_equal. lia.
Qed.

Lemma zadd_expire_free key now d :
  d !! key = None ->
  Redis.pipeline (Redis.zadd key now now) (Redis.expire key 60) d =
  (Ok (1, tt), <[key := Redis.mkEntry (Redis.VZSet [(now, now)]) (Some 60)]> d).
Proof.
  intros Hk. unfold Redis.pipeline, Redis.zadd, Redis.expire. rewrite Hk. simpl.
  rewrite lookup_insert_eq. simpl. by rewrite insert_insert_eq.
Qed.

Lemma store_sliding_allowed identifier config t rl c :
  redis_client rl = Some c -> Redis.faults c = [] ->
  window_ok identifier c ->
  let now := at_entry t in
  let z := stored_window identifier c in
  Forall (fun ms => (now - 60 < snd ms)%Q) z ->
  Forall (fun ms => (fst ms < now)%Q) z ->
  Forall (fun ms => (snd ms <= now)%Q) z ->
  Z.of_nat (length z) < requests_per_minute config ->
  returns (_sliding_window_check identifier config t)
    (fun r rl' =>
       allowed r = true /\
       requests_remaining r = requests_per_minute config - Z.of_nat (length z) - 1 /\
       retry_after r = None /\
       exists c', redis_client rl' = Some c' /\ Redis.faults c' = [] /\
                  window_ok identifier c' /\
                  stored_window identifier c' = z ++ [(now, now)]) rl.
Proof.
  intros Hc Hf Hok now z Hw Hm Hs Hlt. subst now z.
  unfold returns, _sliding_window_check, try_except, bind, gets, redis, Redis.call.
  repeat (rewrite Hc; simpl). rewrite Hf. simpl.
  unfold window_ok, stored_window in *.
  destruct (Redis.data c !! sliding_key identifier) as [[[s|z|h] ttl]|] eqn:Hk;
    try done.
  - destruct z as [|ms z]; [done|].
    rewrite (zremrangebyscore_unexpired _ _ _ _ _ Hk ltac:(done) Hw). simpl.
    rewrite (zcard_zset _ _ _ _ Hk). simpl.
    match goal with |- context [requests_per_minute config <=? ?n] =>
      destruct (Z.leb_spec (requests_per_minute config) n) end; [simpl in Hlt; lia|].
    simpl.
    rewrite (zadd_expire_zset _ _ _ _ _ Hk Hm Hs). simpl.
    split; [done|]. split; [simpl in Hlt |- *; lia|]. split; [done|].
    eexists. split; [reflexivity|]. simpl. rewrite lookup_insert_eq. done.
  - unfold Redis.zremrangebyscore_upto. rewrite Hk. simpl.
    unfold Redis.zcard. rewrite Hk. simpl.
    match goal with |- context [requests_per_minute config <=? ?n] =>
      destruct (Z.leb_spec (requests_per_minute config) n) end; [simpl in Hlt; lia|].
    simpl.
    rewrite (zadd_expire_free _ _ _ Hk). simpl.
    split; [done|]. split; [lia|]. split; [done|].
    eexists. split; [reflexivity|]. simpl. rewrite lookup_insert_eq. done.
Qed.

Lemma store_sliding_denied identifier config t rl c oldest rest :
  redis_client rl = Some c -> Redis.faults c = [] ->
  window_ok identifier c ->
  let now := at_entry t in
  stored_window identifier c = oldest :: rest ->
  Forall (fun ms => (now - 60 < snd ms)%Q) (oldest :: rest) ->
  requests_per_minute config <= Z.of_nat (length (oldest :: rest)) ->
  returns (_sliding_window_check identifier config t)
    (fun r rl' =>
       allowed r = false /\
       requests_remaining r = 0 /\
       retry_after r = Some (py_int (snd oldest + 60 - now))) rl.
Proof.
  intros Hc Hf Hok now Hz Hw Hle. subst now.
  unfold returns, _sliding_window_check, try_except, bind, gets, redis, Redis.call.
  repeat (rewrite Hc; simpl). rewrite Hf. simpl.
  unfold window_ok, stored_window in *.
  destruct (Redis.data c !! sliding_key identifier) as [[[s|z|h] ttl]|] eqn:Hk;
    try done.
  subst z.
  rewrite (zremrangebyscore_unexpired _ _ _ _ _ Hk ltac:(done) Hw). simpl.
  rewrite (zcard_zset _ _ _ _ Hk). simpl.
  match goal with |- context [requests_per_minute config <=? ?n] =>
    destruct (Z.leb_spec (requests_per_minute config) n) end; [|simpl in Hle; lia].
  simpl.
  rewrite (zrange_first_zset _ _ _ _ Hk). simpl.
  by destruct oldest.
Qed.

Lemma py_int_positive (x : Q) :
  (0 < x)%Q -> 0 <= py_int x /\ (1 <= py_int x <-> (1 <= x)%Q).
Proof.
  intros Hx. unfold py_int.
  assert (Qle_bool 0 x = true) as -> by (apply Qle_bool_iff; lra).
  split; [|split].
  - change 0 with (Qfloor 0). apply Qfloor_resp_le. lra.
  - intros H1. pose proof (Qfloor_le x) as Hf.
    assert (inject_Z 1 <= inject_Z (Qfloor x))%Q as Hi by (rewrite <- Zle_Qle; lia).
    change (inject_Z 1) with 1%Q in Hi. lra.
  - intros H1. change 1 with (Qfloor 1). by apply Qfloor_resp_le.
Qed.

Lemma check_sliding identifier config user_tier t :
  strategy config = SLIDING_WINDOW ->
  check_rate_limit identifier (Some config) user_tier t
  = _sliding_window_check identifier config t.
Proof. intros H. unfold check_rate_limit. simpl. by rewrite H. Qed.

Lemma check_all_cons identifier config t ts
  (Q : list RateLimitResult -> RateLimiter -> Prop) rl :
  returns (check_rate_limit identifier (Some config) "basic" t)
    (fun r rl' =>
       returns (check_all identifier config ts) (fun rs rl'' => Q (r :: rs) rl'') rl') rl ->
  returns (check_all identifier config (t :: ts)) Q rl.
Proof.
  intros H. simpl. apply returns_bind. eapply returns_mono; [exact H|].
  cbv beta. intros r rl' H'. apply returns_bind. eapply returns_mono; [exact H'|].
  cbv beta. intros rs rl'' HQ. by apply returns_ret.
Qed.

Ltac window_facts Hreq Hrpm :=
  first [ rewrite Hreq; repeat constructor; simpl; lra
        | rewrite Hreq, Hrpm; simpl; lia
        | rewrite Hrpm; simpl; lia
        | repeat constructor; simpl; lra
        | assumption ].

(** C5, amended.  With [requests_per_minute = 5] under the sliding-window
    strategy, for an identifier without history: five checks within the
    same second are allowed with [requests_remaining] 4, 3, 2, 1, 0 -- on
    the shared-store path provided that their timestamps are pairwise
    distinct, the sorted set being keyed by the timestamp --, and a sixth
    check within the 60 s window of the first is denied with
    [requests_remaining = 0] and
    [retry_after = int(oldest + 60 - now)], which is never negative and is
    positive exactly when the sixth check comes at most 59 s after the
    first.  [clock] is the clock reading that the path uses. *)
Theorem sliding_window_scenario identifier config rl clock (r1 r2 r3 r4 r5 r6 : Readings) :
  strategy config = SLIDING_WINDOW ->
  requests_per_minute config = 5 ->
  let t1 := clock r1 in let t2 := clock r2 in let t3 := clock r3 in
  let t4 := clock r4 in let t5 := clock r5 in let t6 := clock r6 in
  (t1 <= t2 /\ t2 <= t3 /\ t3 <= t4 /\ t4 <= t5 /\ t5 < t1 + 1 /\
   t5 <= t6 /\ t6 < t1 + 60)%Q ->
  (clock = at_local /\ redis_client rl = None /\ _local_cache rl !! identifier = None) \/
  (clock = at_entry /\ (t1 < t2 /\ t2 < t3 /\ t3 < t4 /\ t4 < t5)%Q /\
   exists c, redis_client rl = Some c /\ Redis.faults c = [] /\
             Redis.data c !! sliding_key identifier = None) ->
  returns (check_all identifier config [r1; r2; r3; r4; r5; r6])
    (fun rs _ =>
       map allowed rs = [true; true; true; true; true; false] /\
       map requests_remaining rs = [4; 3; 2; 1; 0; 0] /\
       map retry_after rs =
         [None; None; None; None; None; Some (py_int (t1 + 60 - t6))] /\
       0 <= py_int (t1 + 60 - t6) /\
       (1 <= py_int (t1 + 60 - t6) <-> (t6 <= t1 + 59)%Q)) rl.
Proof.
  intros Hstrat Hrpm t1 t2 t3 t4 t5 t6 Ht Hpath.
  destruct (py_int_positive (t1 + 60 - t6) ltac:(lra)) as [Hnn Hpos].
  assert (1 <= py_int (t1 + 60 - t6) <-> (t6 <= t1 + 59)%Q) as Hpos'.
  { rewrite Hpos. split; intros; lra. }
  subst t1 t2 t3 t4 t5 t6.
  destruct Hpath as [(-> & Hc & Hk) | (-> & Hlt & c & Hc & Hf & Hk)].
  - assert (cached_requests identifier rl = []) as Hreq
      by (unfold cached_requests; by rewrite Hk).
    apply check_all_cons. rewrite (check_sliding _ _ _ _ Hstrat).
    eapply returns_mono; [apply local_sliding_allowed; window_facts Hreq Hrpm|].
    cbv beta. intros x1 rl1 (A1 & R1 & Y1 & Hc1 & Hreq1). rewrite Hreq in *. simpl in Hreq1.
    apply check_all_cons. rewrite (check_sliding _ _ _ _ Hstrat).
    eapply returns_mono; [apply local_sliding_allowed; window_facts Hreq1 Hrpm|].
    cbv beta. intros x2 rl2 (A2 & R2 & Y2 & Hc2 & Hreq2). rewrite Hreq1 in *. simpl in Hreq2.
    apply check_all_cons. rewrite (check_sliding _ _ _ _ Hstrat).
    eapply returns_mono; [apply local_sliding_allowed; window_facts Hreq2 Hrpm|].
    cbv beta. intros x3 rl3 (A3 & R3 & Y3 & Hc3 & Hreq3). rewrite Hreq2 in *. simpl in Hreq3.
    apply check_all_cons. rewrite (check_sliding _ _ _ _ Hstrat).
    eapply returns_mono; [apply local_sliding_allowed; window_facts Hreq3 Hrpm|].
    cbv beta. intros x4 rl4 (A4 & R4 & Y4 & Hc4 & Hreq4). rewrite Hreq3 in *. simpl in Hreq4.
    apply check_all_cons. rewrite (check_sliding _ _ _ _ Hstrat).
    eapply returns_mono; [apply local_sliding_allowed; window_facts Hreq4 Hrpm|].
    cbv beta. intros x5 rl5 (A5 & R5 & Y5 & Hc5 & Hreq5). rewrite Hreq4 in *.
    simpl in Hreq5.
    apply check_all_cons. rewrite (check_sliding _ _ _ _ Hstrat).
    eapply returns_mono;
      [eapply local_sliding_denied; [exact Hc5 | exact Hreq5 | window_facts Hreq5 Hrpm
                                     | window_facts Hreq5 Hrpm]|].
    cbv beta. intros x6 rl6 (A6 & R6 & Y6 & _).
    apply returns_ret. simpl.
    rewrite A1, A2, A3, A4, A5, A6, R1, R2, R3, R4, R5, R6, Y1, Y2, Y3, Y4, Y5, Y6, Hrpm.
    done.
  - assert (stored_window identifier c = []) as Hz
      by (unfold stored_window; by rewrite Hk).
    assert (window_ok identifier c) as Hok by (unfold window_ok; by rewrite Hk).
    apply check_all_cons. rewrite (check_sliding _ _ _ _ Hstrat).
    eapply returns_mono;
      [eapply store_sliding_allowed; [exact Hc | exact Hf | exact Hok | window_facts Hz Hrpm..]|].
    cbv beta. intros x1 rl1 (A1 & R1 & Y1 & c1 & Hc1 & Hf1 & Hok1 & Hz1).
    rewrite Hz in *. simpl in Hz1.
    apply check_all_cons. rewrite (check_sliding _ _ _ _ Hstrat).
    eapply returns_mono;
      [eapply store_sliding_allowed;
         [exact Hc1 | exact Hf1 | exact Hok1 | window_facts Hz1 Hrpm..]|].
    cbv beta. intros x2 rl2 (A2 & R2 & Y2 & c2 & Hc2 & Hf2 & Hok2 & Hz2).
    rewrite Hz1 in *. simpl in Hz2.
    apply check_all_cons. rewrite (check_sliding _ _ _ _ Hstrat).
    eapply returns_mono;
      [eapply store_sliding_allowed;
         [exact Hc2 | exact Hf2 | exact Hok2 | window_facts Hz2 Hrpm..]|].
    cbv beta. intros x3 rl3 (A3 & R3 & Y3 & c3 & Hc3 & Hf3 & Hok3 & Hz3).
    rewrite Hz2 in *. simpl in Hz3.
    apply check_all_cons. rewrite (check_sliding _ _ _ _ Hstrat).
    eapply returns_mono;
      [eapply store_sliding_allowed;
         [exact Hc3 | exact Hf3 | exact Hok3 | window_facts Hz3 Hrpm..]|].
    cbv beta. intros x4 rl4 (A4 & R4 & Y4 & c4 & Hc4 & Hf4 & Hok4 & Hz4).
    rewrite Hz3 in *. simpl in Hz4.
    apply check_all_cons. rewrite (check_sliding _ _ _ _ Hstrat).
    eapply returns_mono;
      [eapply store_sliding_allowed;
         [exact Hc4 | exact Hf4 | exact Hok4 | window_facts Hz4 Hrpm..]|].
    cbv beta. intros x5 rl5 (A5 & R5 & Y5 & c5 & Hc5 & Hf5 & Hok5 & Hz5).
    rewrite Hz4 in *. simpl in Hz5.
    apply check_all_cons. rewrite (check_sliding _ _ _ _ Hstrat).
    eapply returns_mono;
      [eapply store_sliding_denied;
         [exact Hc5 | exact Hf5 | exact Hok5 | exact Hz5 | window_facts Hz5 Hrpm..]|].
    cbv beta. intros x6 rl6 (A6 & R6 & Y6).
    apply returns_ret. simpl.
    rewrite A1, A2, A3, A4, A5, A6, R1, R2, R3, R4, R5, R6, Y1, Y2, Y3, Y4, Y5, Y6, Hrpm.
    done.
Qed.

Lemma sliding_window_scenario_witness :
  let config := mkConfig SLIDING_WINDOW 5 100 1000 5 100 1 (5 # 10) in
  returns (check_all "u" config
             (map at_time [0; 1 # 10; 2 # 10; 3 # 10; 4 # 10; 30]%Q))
    (fun rs _ =>
       map allowed rs = [true; true; true; true; true; false] /\
       map requests_remaining rs = [4; 3; 2; 1; 0; 0] /\
       map retry_after rs =
         [None; None; None; None; None; Some (py_int (0 + 60 - 30))] /\
       0 <= py_int (0 + 60 - 30) /\
       (1 <= py_int (0 + 60 - 30) <-> (30 <= 0 + 59)%Q))
    (RateLimiter_new None).
Proof.
  intros config.
  apply (sliding_window_scenario "u" config (RateLimiter_new None) at_local
           (at_time 0) (at_time (1 # 10)) (at_time (2 # 10)) (at_time (3 # 10))
           (at_time (4 # 10)) (at_time 30) eq_refl eq_refl).
  - vm_compute. repeat split; discriminate.
  - left. repeat split.
Defined.
End RateLimiterProperties.

(** ** C8: configurations *)

Module ConfigurationProperties.


Lemma CircuitBreakerConfig_valid_spec c :
  circuit_breaker.CircuitBreakerConfig_valid c = true <->
  1 <= circuit_breaker.failure_threshold c /\
  1 <= circuit_breaker.success_threshold c /\
  1 <= circuit_breaker.timeout c /\
  (1 # 10 <= circuit_breaker.slow_call_duration_threshold c)%Q /\
  (1 # 10 <= circuit_breaker.slow_call_rate_threshold c)%Q /\
  (circuit_breaker.slow_call_rate_threshold c <= 1)%Q /\
  1 <= circuit_breaker.minimum_number_of_calls c /\
  10 <= circuit_breaker.sliding_window_size c /\
  1 <= circuit_breaker.max_wait_duration_in_half_open c.
Proof.
  unfold circuit_breaker.CircuitBreakerConfig_valid.
  rewrite !andb_true_iff, !Z.leb_le, !Qle_bool_iff. tauto.
Qed.







(** The tables of default configurations pass the validation. *)
Lemma default_configurations_valid :
  map_Forall (fun _ c => circuit_breaker.CircuitBreakerConfig_valid c = true)
    circuit_breaker.default_configs /\
  map_Forall (fun _ c => rate_limiter.RateLimitConfig_valid c = true)
    rate_limiter.default_configs.
Proof.
  split; apply map_Forall_to_list; vm_compute; repeat constructor.
Qed.
End ConfigurationProperties.

(** ** Further properties of the circuit breaker *)

Module CircuitBreakerCoverage.
Import circuit_breaker.
Import CircuitBreakerProperties.

Lemma stats_of_hash_of_stats s cb : stats_of_hash (hash_of_stats s) cb = (Ok s, cb).
Proof.
  destruct s as [st fc sc lf ls tr fr sr av na].
  destruct st, lf, ls, na; vm_compute; reflexivity.
Qed.

Lemma stats_of_hash_overwritten old new cb :
  stats_of_hash (hash_of_stats new ∪ hash_of_stats old) cb = (Ok (overwritten old new), cb).
Proof.
  destruct old as [st0 fc0 sc0 lf0 ls0 tr0 fr0 sr0 av0 na0].
  destruct new as [st fc sc lf ls tr fr sr av na].
  destruct st0, lf0, ls0, na0, st, lf, ls, na; vm_compute; reflexivity.
Qed.

Lemma hash_of_stats_nonempty s : dom (hash_of_stats s) <> (∅ : gset string).
Proof.
  intros H.
  assert (is_Some (hash_of_stats s !! "state")) as Hs.
  { destruct s as [st fc sc lf ls tr fr sr av na].
    destruct lf, ls, na; vm_compute; eauto. }
  apply elem_of_dom in Hs. rewrite H in Hs. by apply not_elem_of_empty in Hs.
Qed.

Lemma fresh_object_free cb : objects cb !! fresh (dom (objects cb)) = None.
Proof. apply not_elem_of_dom, is_fresh. Qed.

Lemma save_run service_name l d n ci ob lg s h :
  ob !! l = Some s ->
  stored_hash (d !! key_of service_name) = Some h ->
  _save_circuit_stats service_name l (mkCB (Some (Redis.mkClient d [] n)) ci ob lg) =
  (Ok tt, mkCB (Some (Redis.mkClient
                  (<[key_of service_name :=
                       Redis.mkEntry (Redis.VHash (hash_of_stats s ∪ h)) (Some 86400)]> d) [] n))
            (<[service_name := l]> ci) ob lg).
Proof.
  intros Ho Hk.
  unfold _save_circuit_stats, bind, try_except, set_circuit, modify, gets, read, redis,
    Redis.call, ret, log.
  simpl. rewrite Ho. simpl. unfold Redis.hset, Redis.expire.
  destruct (d !! key_of service_name) as [[[| |h'] ttl]|] eqn:E; simpl in Hk; try done.
  - injection Hk as ->. simpl. rewrite lookup_insert_eq. simpl. by rewrite insert_insert_eq.
  - injection Hk as <-. simpl. rewrite lookup_insert_eq. simpl.
    by rewrite insert_insert_eq, (right_id_L ∅ (∪)).
Qed.

Lemma get_run service_name d n ci ob lg h ttl s :
  d !! key_of service_name = Some (Redis.mkEntry (Redis.VHash h) ttl) ->
  dom h <> ∅ ->
  (forall cb, stats_of_hash h cb = (Ok s, cb)) ->
  _get_circuit_stats service_name (mkCB (Some (Redis.mkClient d [] n)) ci ob lg) =
  (Ok (fresh (dom ob)), mkCB (Some (Redis.mkClient d [] n)) ci (<[fresh (dom ob) := s]> ob) lg).
Proof.
  intros Hk Hne Hs.
  unfold _get_circuit_stats, bind, try_except, set_circuit, modify, gets, read, redis,
    Redis.call, ret, log.
  simpl. unfold Redis.hgetall. rewrite Hk. simpl.
  destruct (decide (dom h = ∅)) as [E|_]; [done|].
  rewrite Hs. done.
Qed.

(** X1.  Round trip through the store.  With a store that answers and no
    hash yet under the key of the service, the stats saved by
    [_save_circuit_stats] are, field for field, the stats that the
    [_get_circuit_stats] that follows returns; they come back in a new
    object, distinct from the saved one, which stays the one cached for
    the service. *)
Theorem saved_stats_read_back service_name l cb c s :
  redis_client cb = Some c -> Redis.faults c = [] ->
  Redis.data c !! key_of service_name = None ->
  objects cb !! l = Some s ->
  returns (_save_circuit_stats service_name l ;;; _get_circuit_stats service_name)
    (fun l' cb' =>
       l' <> l /\ object_at l' cb' = Some s /\ object_at l cb' = Some s /\
       _circuits cb' !! service_name = Some l) cb.
Proof.
  intros Hc Hf Hk Ho.
  destruct cb as [rc ci ob lg], c as [d fs n]. simpl in *. subst rc fs.
  unfold returns, bind.
  rewrite (save_run service_name l d n ci ob lg s ∅ Ho) by by rewrite Hk.
  rewrite (get_run service_name _ n _ ob lg (hash_of_stats s ∪ ∅) (Some 86400) s).
  - assert (ob !! fresh (dom ob) = None) as Hfr by apply not_elem_of_dom, is_fresh.
    assert (fresh (dom ob) <> l) as Hne by (intros E; rewrite E in Hfr; congruence).
    unfold object_at. simpl.
    rewrite lookup_insert_eq, lookup_insert_ne, lookup_insert_eq by done. done.
  - by rewrite lookup_insert_eq.
  - rewrite (right_id_L ∅ (∪)). apply hash_of_stats_nonempty.
  - intros cb. rewrite (right_id_L ∅ (∪)). apply stats_of_hash_of_stats.
Qed.

Lemma saved_stats_read_back_witness :
  let s := mkStats OPEN 3 0 (Some 7) None 3 3 0 (1 # 2) (Some 30000007) in
  let cb := mkCB (Some (Redis.healthy ∅)) ∅ {[ 0%nat := s ]} [] in
  returns (_save_circuit_stats "trading" 0%nat ;;; _get_circuit_stats "trading")
    (fun l' cb' =>
       l' <> 0%nat /\ object_at l' cb' = Some s /\ object_at 0%nat cb' = Some s /\
       _circuits cb' !! "trading" = Some 0%nat) cb.
Proof.
  intros s cb.
  exact (saved_stats_read_back "trading" 0%nat cb (Redis.healthy ∅) s
           eq_refl eq_refl eq_refl eq_refl).
Defined.

(** X2.  A save over an earlier save.  When the key of the service holds
    the hash of an earlier save, [_save_circuit_stats] overwrites the
    state, the counters and the average, and every time field that is set;
    a time field that is unset in the saved stats is left out of the HSET,
    so that the [_get_circuit_stats] that follows returns it with the value
    of the earlier save.  The cached object is the saved one. *)
Theorem save_keeps_unset_time_fields service_name l cb c s old ttl :
  redis_client cb = Some c -> Redis.faults c = [] ->
  Redis.data c !! key_of service_name =
    Some (Redis.mkEntry (Redis.VHash (hash_of_stats old)) ttl) ->
  objects cb !! l = Some s ->
  returns (_save_circuit_stats service_name l ;;; _get_circuit_stats service_name)
    (fun l' cb' =>
       object_at l' cb' = Some (overwritten old s) /\
       cached service_name cb' = Some s /\
       persisted service_name cb' = Some (hash_of_stats s ∪ hash_of_stats old)) cb.
Proof.
  intros Hc Hf Hk Ho.
  destruct cb as [rc ci ob lg], c as [d fs n]. simpl in *. subst rc fs.
  unfold returns, bind.
  rewrite (save_run service_name l d n ci ob lg s (hash_of_stats old) Ho) by by rewrite Hk.
  rewrite (get_run service_name _ n _ ob lg (hash_of_stats s ∪ hash_of_stats old)
             (Some 86400) (overwritten old s)).
  - assert (ob !! fresh (dom ob) = None) as Hfr by apply not_elem_of_dom, is_fresh.
    assert (fresh (dom ob) <> l) as Hne by (intros E; rewrite E in Hfr; congruence).
    unfold object_at, cached, persisted. simpl.
    rewrite !lookup_insert_eq. simpl. rewrite lookup_insert_ne, Ho by done. done.
  - by rewrite lookup_insert_eq.
  - intros E. rewrite dom_union_L in E. apply empty_union_L in E as [E _].
    by apply hash_of_stats_nonempty in E.
  - intros cb. apply stats_of_hash_overwritten.
Qed.

Lemma save_keeps_unset_time_fields_witness :
  let old := mkStats OPEN 3 0 (Some 7) None 3 3 0 (1 # 2) (Some 30000007) in
  let s := CircuitBreakerStats_new CLOSED in
  let c := Redis.healthy {[ key_of "trading" := Redis.mkEntry (Redis.VHash (hash_of_stats old)) None ]} in
  let cb := mkCB (Some c) ∅ {[ 0%nat := s ]} [] in
  returns (_save_circuit_stats "trading" 0%nat ;;; _get_circuit_stats "trading")
    (fun l' cb' =>
       object_at l' cb' = Some (overwritten old s) /\
       cached "trading" cb' = Some s /\
       persisted "trading" cb' = Some (hash_of_stats s ∪ hash_of_stats old)) cb.
Proof.
  intros old s c cb.
  exact (save_keeps_unset_time_fields "trading" 0%nat cb c s old None
           eq_refl eq_refl eq_refl eq_refl).
Defined.

Lemma scaled_div n : 0 <= n -> scaled n = n * 8 / 10.
Proof.
  intros Hn. unfold scaled, py_int, reduction_factor.
  assert (0 <= inject_Z n * (8 # 10))%Q as Hq.
  { apply Qmult_le_0_compat; [|done]. unfold Qle. simpl. lia. }
  assert (Qle_bool 0 (inject_Z n * (8 # 10)) = true) as -> by by apply Qle_bool_iff.
  reflexivity.
Qed.

Lemma scaled_sum a b c :
  0 <= a -> 0 <= b -> a + b <= c ->
  0 <= scaled a /\ 0 <= scaled b /\ scaled a + scaled b <= scaled c /\ scaled c <= c.
Proof.
  intros Ha Hb Hc. rewrite !scaled_div by lia.
  repeat split; try (apply Z.div_pos; lia).
  - pose proof (Z.div_mod (a * 8) 10 ltac:(lia)).
    pose proof (Z.div_mod (b * 8) 10 ltac:(lia)).
    pose proof (Z.div_mod (c * 8) 10 ltac:(lia)).
    pose proof (Z.mod_pos_bound (a * 8) 10 ltac:(lia)).
    pose proof (Z.mod_pos_bound (b * 8) 10 ltac:(lia)).
    pose proof (Z.mod_pos_bound (c * 8) 10 ltac:(lia)).
    lia.
  - pose proof (Z.div_mod (c * 8) 10 ltac:(lia)).
    pose proof (Z.mod_pos_bound (c * 8) 10 ltac:(lia)).
    lia.
Qed.

Lemma scaled_lt n : 0 < n -> scaled n < n.
Proof.
  intros Hn. rewrite scaled_div by lia.
  pose proof (Z.div_mod (n * 8) 10 ltac:(lia)).
  pose proof (Z.mod_pos_bound (n * 8) 10 ltac:(lia)).
  lia.
Qed.

Lemma sound_fresh : sound (CircuitBreakerStats_new CLOSED).
Proof.
  unfold sound. simpl. repeat split; first [lia | done | by intros [? ?]].
Qed.

Lemma sound_decayed config s : sound s -> sound (decayed config s).
Proof.
  intros (Hf & Hs & Ht & Hst). unfold decayed. destruct (_ <? _); [|done].
  destruct (scaled_sum _ _ _ Hf Hs Ht) as (? & ? & ? & ?).
  unfold sound. simpl. done.
Qed.

Lemma sound_averaged response_time s : sound s -> sound (averaged response_time s).
Proof. intros H. unfold averaged. by destruct (_ =? _). Qed.

Lemma sound_opened config now s :
  0 <= failed_requests s -> 0 <= slow_requests s ->
  failed_requests s + slow_requests s <= total_requests s ->
  sound (opened config now s).
Proof. intros. unfold sound. simpl. repeat split; eauto. Qed.

Lemma sound_not_open st s :
  st <> OPEN ->
  0 <= failed_requests s -> 0 <= slow_requests s ->
  failed_requests s + slow_requests s <= total_requests s ->
  sound (set_next_attempt_time None
           (set_failure_count 0 (set_success_count 0 (set_state st s)))).
Proof.
  intros. unfold sound. simpl. repeat split; first [done | by intros [? ?]].
Qed.

Lemma sound_success_recorded config response_time now s :
  sound s -> sound (success_recorded config response_time now s).
Proof.
  intros (Hf & Hs & Ht & Hst). unfold success_recorded. cbv zeta.
  apply sound_decayed.
  match goal with |- context [averaged ?r ?s0] =>
    assert (sound (averaged r s0)) as Ha
      by (apply sound_averaged; unfold sound; simpl; repeat split; tauto || lia);
    pose proof (total_requests_averaged r s0) as Hta;
    set (s1 := averaged r s0) in * end.
  simpl in Hta. pose proof Ha as (Hf1 & Hs1 & Ht1 & Hst1).
  assert (total_requests s1 = total_requests s + 1) as Htot by exact Hta.
  assert (failed_requests s1 + slow_requests s1 + 1 <= total_requests s1) as Hroom.
  { assert (failed_requests s1 = failed_requests s /\ slow_requests s1 = slow_requests s)
      as [-> ->] by (subst s1; unfold averaged; by destruct (_ =? _)).
    lia. }
  destruct (Qle_bool _ _).
  - destruct (state s1) eqn:E; try done.
    destruct (_ <=? _); [|done].
    apply (sound_not_open CLOSED); [done | lia..].
  - set (s2 := set_slow_requests _ s1).
    assert (sound s2) as H2 by (unfold sound, s2; simpl; repeat split; tauto || lia).
    change (state s2) with (state s1).
    destruct (state s1) eqn:E; try done.
    change (success_count s2) with (success_count s1).
    destruct (_ <=? _); [|done].
    apply (sound_not_open CLOSED); [done | simpl; lia..].
Qed.

Lemma sound_failure_recorded config response_time now now_open s :
  sound s -> sound (failure_recorded config response_time now now_open s).
Proof.
  intros (Hf & Hs & Ht & Hst). unfold failure_recorded. cbv zeta.
  apply sound_decayed.
  match goal with |- context [averaged ?r ?s0] =>
    assert (sound (averaged r s0)) as Ha
      by (apply sound_averaged; unfold sound; simpl; repeat split; tauto || lia);
    set (s1 := averaged r s0) in * end.
  pose proof Ha as (Hf1 & Hs1 & Ht1 & Hst1).
  destruct (state s1) eqn:E; [destruct (_ <=? _); [|done] | done | ];
    by apply sound_opened.
Qed.

Lemma sound_recorded config c s : sound s -> sound (recorded config c s).
Proof.
  destruct c; simpl; [apply sound_success_recorded | apply sound_failure_recorded].
Qed.

Lemma sound_checked config now now_open s :
  sound s -> sound (snd (checked config now now_open s)).
Proof.
  intros H. pose proof H as (Hf & Hs & Ht & Hst). unfold checked.
  destruct (state s) eqn:E.
  - destruct (_ && _); [|done]. by apply sound_opened.
  - destruct (next_attempt_time s); [|done].
    destruct (_ <=? _); [|done]. by apply (sound_not_open HALF_OPEN).
  - done.
Qed.

Lemma total_requests_checked config now now_open s :
  total_requests (snd (checked config now now_open s)) = total_requests s.
Proof.
  unfold checked. destruct (state s).
  - by destruct (_ && _).
  - destruct (next_attempt_time s); [|done]. by destruct (_ <=? _).
  - done.
Qed.

Lemma config_for_valid service_name :
  CircuitBreakerConfig_valid (config_for service_name) = true.
Proof.
  unfold config_for.
  destruct (default_configs !! service_name) as [c|] eqn:E; simpl; [|done].
  exact (proj1 ConfigurationProperties.default_configurations_valid _ _ E).
Qed.


Lemma _get_circuit_stats_local service_name cb :
  redis_client cb = None ->
  _get_circuit_stats service_name cb =
  match _circuits cb !! service_name with
  | Some l => (Ok l, cb)
  | None =>
      (Ok (fresh (dom (objects cb))),
       mkCB None (<[service_name := fresh (dom (objects cb))]> (_circuits cb))
         (<[fresh (dom (objects cb)) := CircuitBreakerStats_new CLOSED]> (objects cb))
         (logs cb))
  end.
Proof.
  destruct cb as [rc ci ob lg]. simpl. intros ->.
  unfold _get_circuit_stats, bind, try_except, gets, ret, new_object, set_circuit, modify.
  simpl. by destruct (ci !! service_name).
Qed.

Lemma _save_circuit_stats_local service_name l cb :
  redis_client cb = None ->
  _save_circuit_stats service_name l cb =
  (Ok tt, mkCB None (<[service_name := l]> (_circuits cb)) (objects cb) (logs cb)).
Proof.
  destruct cb as [rc ci ob lg]. simpl. intros ->.
  by unfold _save_circuit_stats, bind, try_except, gets, ret, set_circuit, modify.
Qed.

Lemma at_object_save_local service_name l cb0 st cb :
  redis_client cb0 = None -> at_object l cb0 st cb ->
  returns (_save_circuit_stats service_name l)
    (fun _ cb' => recorded_at service_name l cb0 st cb' /\ redis_client cb' = None) cb.
Proof.
  intros Hn (Ho & Hc & Hr). unfold returns.
  rewrite _save_circuit_stats_local by congruence. unfold recorded_at. simpl.
  by rewrite Ho, Hc.
Qed.

Lemma _record_success_local service_name l config response_time now cb st :
  redis_client cb = None ->
  objects cb !! l = Some st ->
  total_requests st <> -1 ->
  returns (_record_success service_name l config response_time now)
    (fun _ cb' =>
       recorded_at service_name l cb (success_recorded config response_time now st) cb' /\
       redis_client cb' = None) cb.
Proof.
  intros Hn H%at_object_init Hne. unfold _record_success, success_recorded.
  do 3 step.
  eapply returns_bind, returns_mono;
    [eapply update_average_returns; [eassumption | simpl; lia] | cbv beta; intros ? ? ?].
  step_with slow_call_returns.
  step. step_with close_after_success_returns.
  step. step_with decayed_returns.
  eapply returns_bind, returns_mono;
    [eapply at_object_save_local; eassumption | cbv beta; intros ? ? ?].
  apply returns_log. assumption.
Qed.

Lemma _record_failure_local service_name l config response_time now now_open cb st :
  redis_client cb = None ->
  objects cb !! l = Some st ->
  total_requests st <> -1 ->
  returns (_record_failure service_name l config response_time now now_open)
    (fun _ cb' =>
       recorded_at service_name l cb
         (failure_recorded config response_time now now_open st) cb' /\
       redis_client cb' = None) cb.
Proof.
  intros Hn H%at_object_init Hne. unfold _record_failure, failure_recorded.
  do 4 step.
  eapply returns_bind, returns_mono;
    [eapply update_average_returns; [eassumption | simpl; lia] | cbv beta; intros ? ? ?].
  step. step_with open_after_failure_returns.
  step. step_with decayed_returns.
  eapply returns_bind, returns_mono;
    [eapply at_object_save_local; eassumption | cbv beta; intros ? ? ?].
  apply returns_log. assumption.
Qed.

Lemma well_kept_recorded service_name l cb0 st' cb' :
  well_kept cb0 -> sound st' ->
  recorded_at service_name l cb0 st' cb' -> redis_client cb' = None ->
  well_kept cb'.
Proof.
  intros [_ Hk] Hs [Ho Hc] Hn. split; [done|].
  intros svc l'. rewrite Hc, Ho. intros Hl.
  destruct (decide (l' = l)) as [->|Hne].
  - rewrite lookup_insert_eq. eauto.
  - rewrite lookup_insert_ne by done.
    destruct (decide (svc = service_name)) as [->|Hns].
    + rewrite lookup_insert_eq in Hl. congruence.
    + rewrite lookup_insert_ne in Hl by done. eauto.
Qed.

Lemma well_kept_at_object l cb0 st' cb' :
  well_kept cb0 -> sound st' -> at_object l cb0 st' cb' -> well_kept cb'.
Proof.
  intros [Hn Hk] Hs (Ho & Hc & Hr). split; [congruence|].
  intros svc l'. rewrite Hc, Ho. intros Hl.
  destruct (decide (l' = l)) as [->|Hne].
  - rewrite lookup_insert_eq. eauto.
  - rewrite lookup_insert_ne by done. eauto.
Qed.

Lemma well_kept_get service_name cb :
  well_kept cb ->
  exists l cb1 st,
    _get_circuit_stats service_name cb = (Ok l, cb1) /\
    well_kept cb1 /\ objects cb1 !! l = Some st /\ sound st /\
    _circuits cb1 !! service_name = Some l.
Proof.
  intros [Hn Hk]. rewrite _get_circuit_stats_local by done.
  destruct (_circuits cb !! service_name) as [l|] eqn:E.
  - destruct (Hk _ _ E) as (st & Ho & Hs). by exists l, cb, st.
  - assert (objects cb !! fresh (dom (objects cb)) = None) as Hfr
      by apply not_elem_of_dom, is_fresh.
    eexists _, _, _. split; [reflexivity|]. simpl.
    rewrite !lookup_insert_eq. split; [|split; [done|split; [apply sound_fresh|done]]].
    split; [done|]. simpl. intros svc l' Hl.
    destruct (decide (svc = service_name)) as [->|Hns].
    + rewrite lookup_insert_eq in Hl. injection Hl as <-.
      rewrite lookup_insert_eq. eexists. split; [done|apply sound_fresh].
    + rewrite lookup_insert_ne in Hl by done.
      destruct (Hk _ _ Hl) as (s & Ho & Hs).
      rewrite lookup_insert_ne by congruence. eauto.
Qed.

Lemma sound_total s : sound s -> 0 <= total_requests s.
Proof. intros (? & ? & ? & _). lia. Qed.

Lemma well_kept_reset service_name cb :
  well_kept cb -> well_kept (exec (reset_circuit service_name) cb).
Proof.
  intros [Hn Hk].
  assert (objects cb !! fresh (dom (objects cb)) = None) as Hfr
    by apply not_elem_of_dom, is_fresh.
  unfold exec, reset_circuit, bind, new_object.
  rewrite _save_circuit_stats_local by done. simpl.
  split; [done|]. simpl. intros svc l' Hl.
  destruct (decide (svc = service_name)) as [->|Hns].
  - rewrite lookup_insert_eq in Hl. injection Hl as <-.
    rewrite lookup_insert_eq. eexists. split; [done|apply sound_fresh].
  - rewrite lookup_insert_ne in Hl by done.
    destruct (Hk _ _ Hl) as (s & Ho & Hs).
    rewrite lookup_insert_ne by congruence. eauto.
Qed.

Lemma bind_run_ok {S A B} (m : M S A) (k : A -> M S B) s a s' :
  m s = (Ok a, s') -> bind m k s = k a s'.
Proof. unfold bind. by intros ->. Qed.

Lemma bind_run_raise {S A B} (m : M S A) (k : A -> M S B) s e s' :
  m s = (Raise e, s') -> bind m k s = (Raise e, s').
Proof. unfold bind. by intros ->. Qed.

Lemma try_run_ok {S A} (m : M S A) h s a s' :
  m s = (Ok a, s') -> try_except m h s = (Ok a, s').
Proof. unfold try_except. by intros ->. Qed.

Lemma at_object_lookup l cb0 st cb : at_object l cb0 st cb -> objects cb !! l = Some st.
Proof. intros (Ho & _). by rewrite Ho, lookup_insert_eq. Qed.

(** The run of [call_with_circuit_breaker] once [_get_circuit_stats] has
    returned the cached object, on a breaker without store. *)
Lemma call_with_local service_name func config t cb l cb1 st :
  _get_circuit_stats service_name cb = (Ok l, cb1) ->
  redis_client cb1 = None ->
  _circuits cb1 !! service_name = Some l ->
  objects cb1 !! l = Some st ->
  0 <= total_requests st ->
  let cfg := default (config_for service_name) config in
  1 <= minimum_number_of_calls cfg ->
  let st1 := snd (checked cfg (at_check t) (at_open t) st) in
  outcome (call_with_circuit_breaker service_name func config t)
    (fun _ cb' =>
       fst (checked cfg (at_check t) (at_open t) st) = true /\
       exists rt, func = Returns rt /\
         at_object l cb1 (success_recorded cfg rt (at_record t) st1) cb')
    (fun e cb' =>
       if fst (checked cfg (at_check t) (at_open t) st) then
         e = CallError /\
         exists rt, func = Fails rt /\
           at_object l cb1 (failure_recorded cfg rt (at_record t) (at_reopen t) st1) cb'
       else
         e = CircuitBreakerException service_name
               (match next_attempt_time st1 with
                | Some nt => Z.quot (nt - at_retry t) 1000000
                | None => timeout cfg
                end) /\
         at_object l cb1 st1 cb') cb.
Proof.
  intros Hget Hn Hc Ho Ht cfg Hmin st1.
  assert (<[service_name := l]> (_circuits cb1) = _circuits cb1) as Hci
    by by rewrite insert_id.
  unfold outcome, call_with_circuit_breaker. fold cfg.
  erewrite bind_run_ok by exact Hget.
  pose proof (_can_proceed_async_returns service_name l cfg (at_check t) (at_open t)
                cb1 st Ho ltac:(lia)) as Hchk.
  apply returns_run in Hchk as (ok & cb2 & Heq & -> & Hat).
  erewrite bind_run_ok by exact Heq.
  pose proof (at_object_lookup _ _ _ _ Hat) as Ho2.
  pose proof Hat as (Hob2 & Hci2 & Hrc2).
  fold st1 in Ho2, Hob2 |- *.
  assert (total_requests st1 <> -1) as Hne.
  { subst st1. rewrite total_requests_checked. lia. }
  destruct (fst (checked cfg (at_check t) (at_open t) st)) eqn:Eok; cbn [negb].
  - destruct func as [rt|rt]; cbv beta iota.
    + pose proof (_record_success_local service_name l cfg rt (at_record t) cb2 st1
                    ltac:(congruence) Ho2 Hne) as Hrec.
      apply returns_run in Hrec as ([] & cb3 & Heq3 & [Hob3 Hci3] & Hrc3).
      erewrite try_run_ok by exact Heq3.
      split; [done|]. exists rt. split; [done|].
      split; [by rewrite Hob3, Hob2, insert_insert_eq|]. split; congruence.
    + pose proof (_record_failure_local service_name l cfg rt (at_record t) (at_reopen t)
                    cb2 st1 ltac:(congruence) Ho2 Hne) as Hrec.
      apply returns_run in Hrec as ([] & cb3 & Heq3 & [Hob3 Hci3] & Hrc3).
      erewrite bind_run_ok by exact Heq3. unfold raise.
      split; [done|]. exists rt. split; [done|].
      split; [by rewrite Hob3, Hob2, insert_insert_eq|]. split; congruence.
  - unfold bind, read, gets, raise. rewrite Ho2. simpl. done.
Qed.

Lemma valid_minimum config :
  CircuitBreakerConfig_valid config = true -> 1 <= minimum_number_of_calls config.
Proof. intros H%ConfigurationProperties.CircuitBreakerConfig_valid_spec. tauto. Qed.

Lemma well_kept_perform o cb :
  configured o = true -> well_kept cb -> well_kept (exec (perform o) cb).
Proof.
  intros Hv Hk. destruct o as [svc func config t | svc now | svc now now_open | svc]; simpl.
  - destruct (well_kept_get svc cb Hk) as (l & cb1 & st & Hget & Hk1 & Ho & Hs & Hc).
    pose proof (call_with_local svc func config t cb l cb1 st Hget (proj1 Hk1) Hc Ho
                  (sound_total _ Hs)) as Hrun.
    cbv zeta in Hrun.
    assert (CircuitBreakerConfig_valid (default (config_for svc) config) = true) as Hcfg.
    { destruct config; [done | apply config_for_valid]. }
    specialize (Hrun (valid_minimum _ Hcfg)).
    pose proof (sound_checked (default (config_for svc) config) (at_check t) (at_open t)
                  st Hs) as Hs1.
    unfold outcome in Hrun. unfold exec.
    destruct (call_with_circuit_breaker svc func config t cb) as [[[]|e] cb']; simpl.
    + destruct Hrun as (_ & rt & _ & Hat).
      eapply well_kept_at_object; [exact Hk1 | | exact Hat].
      by apply sound_success_recorded.
    + destruct (fst (checked _ _ _ st)).
      * destruct Hrun as (_ & rt & _ & Hat).
        eapply well_kept_at_object; [exact Hk1 | | exact Hat].
        by apply sound_failure_recorded.
      * destruct Hrun as (_ & Hat).
        eapply well_kept_at_object; [exact Hk1 | exact Hs1 | exact Hat].
  - destruct (well_kept_get svc cb Hk) as (l & cb1 & st & Hget & Hk1 & Ho & Hs & Hc).
    unfold exec, record_success. erewrite bind_run_ok by exact Hget.
    pose proof (_record_success_local svc l (config_for svc) 0 now cb1 st (proj1 Hk1) Ho
                  ltac:(pose proof (sound_total _ Hs); lia)) as Hrec.
    apply returns_run in Hrec as ([] & cb2 & -> & Hrec & Hn). simpl.
    eapply well_kept_recorded; [exact Hk1 | | exact Hrec | exact Hn].
    by apply sound_success_recorded.
  - destruct (well_kept_get svc cb Hk) as (l & cb1 & st & Hget & Hk1 & Ho & Hs & Hc).
    unfold exec, record_failure. erewrite bind_run_ok by exact Hget.
    pose proof (_record_failure_local svc l (config_for svc) 0 now now_open cb1 st
                  (proj1 Hk1) Ho ltac:(pose proof (sound_total _ Hs); lia)) as Hrec.
    apply returns_run in Hrec as ([] & cb2 & -> & Hrec & Hn). simpl.
    eapply well_kept_recorded; [exact Hk1 | | exact Hrec | exact Hn].
    by apply sound_failure_recorded.
  - by apply well_kept_reset.
Qed.

Lemma well_kept_performed os : forall cb,
  forallb configured os = true -> well_kept cb -> well_kept (performed os cb).
Proof.
  induction os as [|o os IH]; intros cb Hv Hk; [done|].
  simpl in Hv. apply andb_true_iff in Hv as [Ho Hos].
  unfold performed. simpl. apply IH; [done|]. by apply well_kept_perform.
Qed.

Lemma well_kept_new : well_kept (CircuitBreaker_new None).
Proof. split; [done|]. intros svc l. simpl. by rewrite lookup_empty. Qed.

(** X4.  Without a store client, after any sequence of protected calls,
    recorded successes, recorded failures and resets, made with valid
    configurations on a new circuit breaker, whether they return or raise,
    the stats cached for any service have non-negative failure and
    slow-call counters whose sum is at most the number of requests, and
    have a [next_attempt_time] exactly when they are Open. *)
Theorem local_stats_stay_sound os service_name s :
  forallb configured os = true ->
  cached service_name (performed os (CircuitBreaker_new None)) = Some s ->
  0 <= failed_requests s /\ 0 <= slow_requests s /\
  failed_requests s + slow_requests s <= total_requests s /\
  (state s = OPEN <-> is_Some (next_attempt_time s)).
Proof.
  intros Hv Hc.
  destruct (well_kept_performed os _ Hv well_kept_new) as [_ Hk].
  unfold cached in Hc.
  destruct (_circuits (performed os (CircuitBreaker_new None)) !! service_name)
    as [l|] eqn:E; [|done]. simpl in Hc.
  destruct (Hk _ _ E) as (s' & Ho & Hs). rewrite Ho in Hc. by injection Hc as <-.
Qed.

Lemma local_stats_stay_sound_witness :
  let os := [RecordFailure "trading" 0 0; RecordFailure "trading" 1 1;
             RecordFailure "trading" 2 2;
             CallWith "trading" (Returns 1) None
               (mkReadings 40000000 40000000 40000000 40000000 40000000 40000000 0)] in
  let s := mkStats HALF_OPEN 0 1 (Some 2) (Some 40000000) 4 3 0 (6 # 24) None in
  0 <= failed_requests s /\ 0 <= slow_requests s /\
  failed_requests s + slow_requests s <= total_requests s /\
  (state s = OPEN <-> is_Some (next_attempt_time s)).
Proof.
  intros os s.
  exact (local_stats_stay_sound os "trading" s eq_refl eq_refl).
Defined.

Lemma in_window_decayed config s :
  0 <= failed_requests s -> 0 <= slow_requests s ->
  failed_requests s + slow_requests s <= total_requests s ->
  0 < total_requests s <= sliding_window_size config + 1 ->
  in_window config (decayed config s).
Proof.
  intros Hf Hs Ht Hw. unfold decayed.
  destruct (Z.ltb_spec (sliding_window_size config) (total_requests s)) as [Hlt|Hge].
  - destruct (scaled_sum _ _ _ Hf Hs Ht) as (? & ? & ? & ?).
    pose proof (scaled_lt (total_requests s) ltac:(lia)).
    unfold in_window. simpl. repeat split; lia.
  - unfold in_window. repeat split; lia.
Qed.

Lemma in_window_recorded config c s :
  in_window config s -> in_window config (recorded config c s).
Proof.
  intros (Hf & Hs & Ht & Hw).
  destruct c as [rt now | rt now now_open]; simpl;
    unfold success_recorded, failure_recorded; cbv zeta.
  - match goal with |- context [averaged ?r ?s0] =>
      pose proof (averaged_fields r s0) as Ha; set (s1 := averaged r s0) in * end.
    simpl in Ha.
    assert (failed_requests s1 = failed_requests s /\ slow_requests s1 = slow_requests s
            /\ total_requests s1 = total_requests s + 1) as (H1 & H2 & H3).
    { subst s1. unfold averaged. by destruct (_ =? _). }
    apply in_window_decayed;
      destruct (Qle_bool _ _); simpl; destruct (state s1); simpl;
      try destruct (_ <=? _); simpl; lia.
  - match goal with |- context [averaged ?r ?s0] =>
      set (s1 := averaged r s0) in * end.
    assert (failed_requests s1 = failed_requests s + 1 /\ slow_requests s1 = slow_requests s
            /\ total_requests s1 = total_requests s + 1) as (H1 & H2 & H3).
    { subst s1. unfold averaged. by destruct (_ =? _). }
    apply in_window_decayed;
      destruct (state s1); simpl; try destruct (_ <=? _); simpl; lia.
Qed.

Lemma in_window_all config cs : forall s,
  in_window config s -> in_window config (foldl (fun s c => recorded config c s) s cs).
Proof.
  induction cs as [|c cs IH]; intros s Hs; [done|].
  simpl. by apply IH, in_window_recorded.
Qed.

(** X5.  The request counters stay within the sliding window: if the
    counters of a stats object are consistent and [total_requests] is at
    most [sliding_window_size], they are so after any sequence of recorded
    successes and failures, each of which returns. *)
Theorem counters_stay_in_window service_name l config cs cb st :
  objects cb !! l = Some st ->
  0 <= failed_requests st -> 0 <= slow_requests st ->
  failed_requests st + slow_requests st <= total_requests st ->
  total_requests st <= sliding_window_size config ->
  returns (record_all service_name l config cs)
    (fun _ cb' => exists st',
       object_at l cb' = Some st' /\
       0 <= failed_requests st' /\ 0 <= slow_requests st' /\
       failed_requests st' + slow_requests st' <= total_requests st' /\
       total_requests st' <= sliding_window_size config) cb.
Proof.
  intros Ho Hf Hs Ht Hw.
  eapply returns_mono; [apply (record_all_returns _ _ _ _ _ _ Ho); lia|].
  cbv beta. intros _ cb' Hob. eexists. split; [exact Hob|].
  by apply in_window_all.
Qed.

Lemma counters_stay_in_window_witness :
  let cb := mkCB None {[ "risk" := 0%nat ]} {[ 0%nat := mkStats CLOSED 1 98 None None 100 1 2 0 None ]} [] in
  returns (record_all "risk" 0%nat (config_for "risk") [Success 6 1; Failure 0 2 2])
    (fun _ cb' => exists st',
       object_at 0%nat cb' = Some st' /\
       0 <= failed_requests st' /\ 0 <= slow_requests st' /\
       failed_requests st' + slow_requests st' <= total_requests st' /\
       total_requests st' <= sliding_window_size (config_for "risk")) cb.
Proof.
  intros cb.
  exact (counters_stay_in_window "risk" 0%nat (config_for "risk")
           [Success 6 1; Failure 0 2 2] cb _ eq_refl
           ltac:(vm_compute; discriminate) ltac:(vm_compute; discriminate)
           ltac:(vm_compute; discriminate) ltac:(vm_compute; discriminate)).
Defined.

(** X6.  Without a store client, a protected call on a circuit that is
    Open and whose deadline lies after the time of the check raises
    [CircuitBreakerException] with
    [retry_after = int((next_attempt_time - now).total_seconds())] and
    leaves the circuit breaker exactly as it was: the callable is not run,
    nothing is recorded or logged.  [retry_after] is non-negative when
    its clock reading does not pass the deadline, and is zero or negative
    when it does. *)
Theorem open_circuit_rejects_call service_name func config t cb l st deadline :
  redis_client cb = None ->
  _circuits cb !! service_name = Some l ->
  objects cb !! l = Some st ->
  state st = OPEN ->
  next_attempt_time st = Some deadline ->
  at_check t < deadline ->
  call_with_circuit_breaker service_name func config t cb =
    (Raise (CircuitBreakerException service_name
              (Z.quot (deadline - at_retry t) 1000000)), cb) /\
  (at_retry t <= deadline -> 0 <= Z.quot (deadline - at_retry t) 1000000) /\
  (deadline < at_retry t -> Z.quot (deadline - at_retry t) 1000000 <= 0).
Proof.
  intros Hn Hc Ho Hs Hd Hlt. split.
  - unfold call_with_circuit_breaker.
    erewrite bind_run_ok by (rewrite _get_circuit_stats_local, Hc; done).
    unfold _can_proceed_async, bind, read, gets, ret, raise. rewrite Ho. simpl.
    rewrite Hs, Hd.
    destruct (Z.leb_spec deadline (at_check t)); [lia|]. simpl. rewrite Ho. simpl. by rewrite Hd.
  - split; intros H.
    + apply Z.quot_pos; lia.
    + rewrite <- (Z.opp_involutive (deadline - at_retry t)), Z.quot_opp_l by lia.
      pose proof (Z.quot_pos (- (deadline - at_retry t)) 1000000 ltac:(lia) ltac:(lia)).
      lia.
Qed.

Lemma open_circuit_rejects_call_witness :
  let st := mkStats OPEN 3 0 (Some 0) None 3 3 0 0 (Some 30000000) in
  let cb := mkCB None {[ "trading" := 0%nat ]} {[ 0%nat := st ]} [] in
  let t := mkReadings 1500000 1500000 1600000 0 0 0 0 in
  call_with_circuit_breaker "trading" (Returns 0) None t cb =
    (Raise (CircuitBreakerException "trading" 28), cb).
Proof.
  intros st cb t.
  exact (proj1 (open_circuit_rejects_call "trading" (Returns 0) None t cb 0%nat st 30000000
                  eq_refl eq_refl eq_refl eq_refl eq_refl eq_refl)).
Defined.



Lemma stats_of_hash_state h cb :
  stats_of_hash h cb = (fst (stats_of_hash h (CircuitBreaker_new None)), cb).
Proof.
  unfold stats_of_hash, bind, lift, ret. simpl.
  destruct (field_state h); [|done].
  destruct (field_int h "failure_count"); [|done].
  destruct (field_int h "success_count"); [|done].
  destruct (field_datetime h "last_failure_time"); [|done].
  destruct (field_datetime h "last_success_time"); [|done].
  destruct (field_int h "total_requests"); [|done].
  destruct (field_int h "failed_requests"); [|done].
  destruct (field_int h "slow_requests"); [|done].
  destruct (field_float h "average_response_time"); [|done].
  by destruct (field_datetime h "next_attempt_time").
Qed.

Lemma stats_of_hash_parsed h s cb :
  parsed h = Some s -> stats_of_hash h cb = (Ok s, cb).
Proof.
  unfold parsed. intros H. rewrite stats_of_hash_state.
  destruct (stats_of_hash h (CircuitBreaker_new None)) as [[s'|e] cb']; [|done].
  by injection H as ->.
Qed.

Lemma stats_of_hash_unparsed h cb :
  parsed h = None -> exists e, stats_of_hash h cb = (Raise e, cb).
Proof.
  unfold parsed. intros H. rewrite stats_of_hash_state.
  destruct (stats_of_hash h (CircuitBreaker_new None)) as [[s'|e] cb']; [done|].
  by exists e.
Qed.

Lemma get_stored service_name d n ci ob lg h ttl s :
  d !! key_of service_name = Some (Redis.mkEntry (Redis.VHash h) ttl) ->
  dom h <> ∅ ->
  parsed h = Some s ->
  _get_circuit_stats service_name (mkCB (Some (Redis.mkClient d [] n)) ci ob lg) =
  (Ok (fresh (dom ob)),
   mkCB (Some (Redis.mkClient d [] n)) ci (<[fresh (dom ob) := s]> ob) lg).
Proof.
  intros Hk Hne Hs.
  unfold _get_circuit_stats, bind, try_except, set_circuit, modify, gets, read, redis,
    Redis.call, ret, log.
  simpl. unfold Redis.hgetall. rewrite Hk. simpl.
  destruct (decide (dom h = ∅)) as [E|_]; [done|].
  rewrite (stats_of_hash_parsed _ _ _ Hs). done.
Qed.

Lemma rate_trip_rejects service_name config func t cb c h ttl s :
  redis_client cb = Some c -> Redis.faults c = [] ->
  Redis.data c !! key_of service_name = Some (Redis.mkEntry (Redis.VHash h) ttl) ->
  dom h <> ∅ ->
  parsed h = Some s ->
  state s = CLOSED ->
  let cfg := default (config_for service_name) config in
  1 <= minimum_number_of_calls cfg <= total_requests s ->
  Qle_bool (5 # 10) (inject_Z (failed_requests s) / inject_Z (total_requests s))
  || Qle_bool (slow_call_rate_threshold cfg)
       (inject_Z (slow_requests s) / inject_Z (total_requests s)) = true ->
  raises (call_with_circuit_breaker service_name func config t)
    (fun e cb' =>
       e = CircuitBreakerException service_name
             (Z.quot (at_open t + timedelta_seconds (timeout cfg) - at_retry t) 1000000) /\
       redis_client cb' = redis_client cb /\ _circuits cb' = _circuits cb) cb.
Proof.
  intros Hc Hf Hk Hne Hp Hs cfg Hmin Hrate.
  destruct cb as [rc ci ob lg], c as [d fs n]. simpl in *. subst rc fs.
  unfold raises, call_with_circuit_breaker. fold cfg.
  erewrite bind_run_ok by exact (get_stored _ _ _ _ _ _ _ _ _ Hk Hne Hp).
  set (l := fresh (dom ob)). set (cb1 := mkCB _ ci (<[l := s]> ob) lg).
  assert (objects cb1 !! l = Some s) as Ho by (simpl; by rewrite lookup_insert_eq).
  pose proof (_can_proceed_async_returns service_name l cfg (at_check t) (at_open t)
                cb1 s Ho ltac:(lia)) as Hchk.
  apply returns_run in Hchk as (ok & cb2 & Heq & -> & Hat).
  erewrite bind_run_ok by exact Heq.
  pose proof (at_object_lookup _ _ _ _ Hat) as Ho2.
  destruct Hat as (_ & Hci2 & Hrc2).
  unfold checked in *. rewrite Hs in *.
  assert ((minimum_number_of_calls cfg <=? total_requests s) = true) as Hm by lia.
  rewrite Hm, Hrate in *. simpl in *.
  unfold bind, read, gets, raise. rewrite Ho2. simpl. done.
Qed.

Lemma elapse_lookup seconds d key :
  Redis.elapse seconds d !! key =
  match d !! key with
  | Some e =>
      match Redis.ttl e with
      | None => Some e
      | Some t => if t <=? seconds then None
                  else Some (Redis.mkEntry (Redis.value e) (Some (t - seconds)))
      end
  | None => None
  end.
Proof.
  unfold Redis.elapse. rewrite lookup_omap. by destruct (d !! key).
Qed.

Lemma waits_nonneg (calls : list (Z * Outcome * Readings)) :
  Forall (fun call => 0 <= call.1.1) calls ->
  0 <= foldr Z.add 0 (map (fun call => call.1.1) calls).
Proof. induction 1; simpl; lia. Qed.

(** X8.  With a store that answers, the trip of the rate rule is neither
    persisted nor cached.  When the hash persisted for a service reads as
    Closed stats with at least [minimum_number_of_calls] requests and a
    failure rate of at least 0.5, or a slow-call rate of at least the
    threshold, every protected call made while the key lives -- the waits
    before the calls add up to less than the time that the key has left to
    live -- is rejected with [CircuitBreakerException]: each one reads the
    persisted stats again, opens a copy of them and raises, and the
    circuit does not become HalfOpen.  Once the key has expired,
    [_get_circuit_stats] hands out the object cached for the service, or
    a new Closed object that it caches when there is none. *)
Theorem rate_trip_is_not_persisted service_name config cb c h ttl s :
  redis_client cb = Some c -> Redis.faults c = [] ->
  Redis.data c !! key_of service_name = Some (Redis.mkEntry (Redis.VHash h) ttl) ->
  dom h <> ∅ ->
  parsed h = Some s ->
  state s = CLOSED ->
  let cfg := default (config_for service_name) config in
  1 <= minimum_number_of_calls cfg <= total_requests s ->
  Qle_bool (5 # 10) (inject_Z (failed_requests s) / inject_Z (total_requests s))
  || Qle_bool (slow_call_rate_threshold cfg)
       (inject_Z (slow_requests s) / inject_Z (total_requests s)) = true ->
  (forall calls,
     Forall (fun call => 0 <= call.1.1) calls ->
     (forall lifetime, ttl = Some lifetime ->
        foldr Z.add 0 (map (fun call => call.1.1) calls) < lifetime) ->
     all_rejected service_name config calls cb) /\
  (forall lifetime seconds,
     ttl = Some lifetime -> lifetime <= seconds ->
     returns (_get_circuit_stats service_name)
       (fun l cb' =>
          redis_client cb' = redis_client (later seconds cb) /\
          logs cb' = logs cb /\
          match _circuits cb !! service_name with
          | Some cached_object =>
              l = cached_object /\ objects cb' = objects cb /\ _circuits cb' = _circuits cb
          | None =>
              objects cb !! l = None /\
              objects cb' = <[l := CircuitBreakerStats_new CLOSED]> (objects cb) /\
              _circuits cb' = <[service_name := l]> (_circuits cb)
          end) (later seconds cb)).
Proof.
  intros Hc Hf Hk Hne Hp Hs cfg Hmin Hrate. split.
  - intros calls. revert cb c ttl Hc Hf Hk.
    induction calls as [|[[seconds func] t] calls IH]; intros cb c ttl Hc Hf Hk Hw Hlife;
      [done|].
    apply Forall_cons in Hw as [Hw0 Hw]. simpl in Hw0, Hlife. simpl.
    pose proof (waits_nonneg _ Hw) as Hsum.
    set (ttl' := (fun lifetime => lifetime - seconds) <$> ttl).
    assert (Redis.data (Redis.later seconds c) !! key_of service_name
            = Some (Redis.mkEntry (Redis.VHash h) ttl')) as Hk'.
    { simpl. rewrite elapse_lookup, Hk. simpl. unfold ttl'.
      destruct ttl as [lifetime|]; [|done]. simpl.
      specialize (Hlife lifetime eq_refl).
      destruct (Z.leb_spec lifetime seconds); [lia | done]. }
    assert (redis_client (later seconds cb) = Some (Redis.later seconds c)) as Hc'.
    { unfold later. simpl. by rewrite Hc. }
    pose proof (rate_trip_rejects service_name config func t (later seconds cb)
                  (Redis.later seconds c) h ttl' s Hc' Hf Hk' Hne Hp Hs Hmin Hrate) as Hr.
    unfold raises in *.
    destruct (call_with_circuit_breaker service_name func config t (later seconds cb))
      as [[a|e] cb']; [done|].
    destruct Hr as (-> & Hrc & _). split; [by eexists|].
    apply (IH cb' (Redis.later seconds c) ttl'); [congruence | done | done | done |].
    intros lifetime' Hl'. unfold ttl' in Hl'.
    destruct ttl as [lifetime|]; [|done]. simpl in Hl'. injection Hl' as <-.
    specialize (Hlife lifetime eq_refl). lia.
  - intros lifetime seconds -> Hle.
    destruct cb as [rc ci ob lg], c as [d fs n]. simpl in *. subst rc fs.
    unfold returns, later, Redis.later. simpl.
    unfold _get_circuit_stats, bind, try_except, set_circuit, new_object, modify, gets,
      read, redis, Redis.call, ret, log. simpl.
    unfold Redis.hgetall. rewrite elapse_lookup, Hk. simpl.
    destruct (Z.leb_spec lifetime seconds); [|lia]. simpl.
    destruct (decide (dom (∅ : gmap string Redis.Scalar) = ∅)) as [_|E];
      [|by rewrite dom_empty_L in E].
    simpl. destruct (ci !! service_name) as [l0|] eqn:Eci; simpl.
    + done.
    + repeat split. exact (fresh_object_free (mkCB None ci ob lg)).
Qed.

Lemma rate_trip_is_not_persisted_witness :
  let s := mkStats CLOSED 0 10 None (Some 9) 10 0 10 3 None in
  let c := Redis.healthy
             {[ key_of "trading" := Redis.mkEntry (Redis.VHash (hash_of_stats s)) (Some 86400) ]} in
  let cb := CircuitBreaker_new (Some c) in
  let tick n := mkReadings n n n n n n 0 in
  all_rejected "trading" None
    [(10, Returns 0, tick 10); (3600, Returns 0, tick 50000000);
     (80000, Returns 0, tick 100000000)] cb.
Proof.
  intros s c cb tick.
  exact (proj1 (rate_trip_is_not_persisted "trading" None cb c (hash_of_stats s)
                  (Some 86400) s
                  eq_refl eq_refl ltac:(vm_compute; reflexivity) (hash_of_stats_nonempty s)
                  ltac:(vm_compute; reflexivity) eq_refl
                  ltac:(vm_compute; split; discriminate) ltac:(vm_compute; reflexivity))
           [(10, Returns 0, tick 10); (3600, Returns 0, tick 50000000);
            (80000, Returns 0, tick 100000000)]
           ltac:(repeat constructor; vm_compute; discriminate)
           ltac:(intros lifetime [= <-]; vm_compute; reflexivity)).
Defined.

(** X3.  When the store cannot be read -- the call of the client raises,
    or the persisted hash does not parse --, [_get_circuit_stats] does not
    raise: it logs a warning and returns the object cached for the service,
    leaving the objects and the cache as they were, or, when nothing is
    cached, a new Closed object that it caches. *)
Theorem unreadable_stats_fall_back_to_cache service_name cb c :
  redis_client cb = Some c ->
  (exists f fs, Redis.faults c = f :: fs /\ f <> Redis.Reply) \/
  (Redis.faults c = [] /\
   exists h ttl,
     Redis.data c !! key_of service_name = Some (Redis.mkEntry (Redis.VHash h) ttl) /\
     dom h <> ∅ /\ parsed h = None) ->
  returns (_get_circuit_stats service_name)
    (fun l cb' =>
       logs cb' = logs cb ++
                  [mkLog WARNING "Failed to get circuit stats from Redis" service_name] /\
       match _circuits cb !! service_name with
       | Some cached_object =>
           l = cached_object /\ objects cb' = objects cb /\ _circuits cb' = _circuits cb
       | None =>
           objects cb !! l = None /\
           objects cb' = <[l := CircuitBreakerStats_new CLOSED]> (objects cb) /\
           _circuits cb' = <[service_name := l]> (_circuits cb)
       end) cb.
Proof.
  intros Hc Hfail.
  assert (objects cb !! fresh (dom (objects cb)) = None) as Hfr
    by apply not_elem_of_dom, is_fresh.
  destruct cb as [rc ci ob lg], c as [d fs n]. simpl in *. subst rc.
  unfold returns, _get_circuit_stats, bind, try_except, set_circuit, modify, gets, read,
    redis, Redis.call, ret, log, new_object.
  simpl.
  destruct Hfail as [(f & fs' & -> & Hne) | (-> & h & ttl & Hk & Hd & Hp)].
  - destruct f; [done| |]; simpl; by destruct (ci !! service_name).
  - unfold Redis.hgetall. rewrite Hk. simpl.
    destruct (decide (dom h = ∅)) as [E|_]; [done|].
    destruct (stats_of_hash_unparsed h
                (mkCB (Some (Redis.mkClient d [] n)) ci ob lg) Hp) as [e ->].
    simpl. by destruct (ci !! service_name).
Qed.

Lemma unreadable_stats_fall_back_to_cache_witness :
  let st := mkStats OPEN 3 0 (Some 0) None 3 3 0 0 (Some 30000000) in
  let c := Redis.mkClient ∅ [Redis.Refused] 0 in
  let cb := mkCB (Some c) {[ "trading" := 0%nat ]} {[ 0%nat := st ]} [] in
  returns (_get_circuit_stats "trading")
    (fun l cb' =>
       logs cb' = logs cb ++
                  [mkLog WARNING "Failed to get circuit stats from Redis" "trading"] /\
       match _circuits cb !! "trading" with
       | Some cached_object =>
           l = cached_object /\ objects cb' = objects cb /\ _circuits cb' = _circuits cb
       | None =>
           objects cb !! l = None /\
           objects cb' = <[l := CircuitBreakerStats_new CLOSED]> (objects cb) /\
           _circuits cb' = <[("trading" : string) := l]> (_circuits cb)
       end) cb.
Proof.
  intros st c cb.
  assert ((exists f fs, Redis.faults c = f :: fs /\ f <> Redis.Reply) \/
  (Redis.faults c = [] /\
   exists h ttl,
     Redis.data c !! key_of "trading" = Some (Redis.mkEntry (Redis.VHash h) ttl) /\
     dom h <> ∅ /\ parsed h = None)) as H.
  { left. exists Redis.Refused, []. split; [reflexivity | discriminate]. }
  pose proof (unreadable_stats_fall_back_to_cache "trading" cb c eq_refl H) as H2.
  exact H2.
Defined.

(** X9.  [reset_circuit] returns, whatever the store does; the stats cached
    for the service are then the Closed baseline, in a new object; the
    cache entries of the other services and all existing objects are as
    they were. *)
Theorem reset_circuit_restores_baseline service_name cb :
  returns (reset_circuit service_name)
    (fun _ cb' =>
       cached service_name cb' = Some (CircuitBreakerStats_new CLOSED) /\
       (forall other, other <> service_name ->
          _circuits cb' !! other = _circuits cb !! other) /\
       (forall l s, objects cb !! l = Some s -> objects cb' !! l = Some s)) cb.
Proof.
  assert (exists l, l = fresh (dom (objects cb)) /\ objects cb !! l = None)
    as (l & Hl & Hfr) by (eexists; split; [done | apply not_elem_of_dom, is_fresh]).
  unfold reset_circuit, returns, bind, new_object. rewrite <- Hl. clear Hl.
  pose proof (_save_circuit_stats_returns service_name l
                (mkCB (redis_client cb) (_circuits cb)
                   (<[l := CircuitBreakerStats_new CLOSED]> (objects cb)) (logs cb)))
    as Hsave.
  unfold returns, saved in Hsave.
  destruct (_save_circuit_stats service_name l _) as [[[]|e] cb2]; [|done].
  destruct Hsave as [Ho Hc]. unfold log, modify, cached.
  cbn [objects _circuits] in *. rewrite Hc, Ho, lookup_insert_eq.
  cbn [mbind option_bind]. rewrite lookup_insert_eq.
  split; [done|]. split.
  - intros other Hne. by rewrite lookup_insert_ne.
  - intros l' s Hl. rewrite lookup_insert_ne; [done|]. congruence.
Qed.

Lemma ping_run (c : Redis.Client) :
  Redis.call Redis.ping c =
  match Redis.faults c with
  | [] => (Ok tt, Redis.mkClient (Redis.data c) [] (Redis.raised c))
  | Redis.Reply :: fs => (Ok tt, Redis.mkClient (Redis.data c) fs (Redis.raised c))
  | _ :: fs => (Raise RedisError, Redis.mkClient (Redis.data c) fs (S (Redis.raised c)))
  end.
Proof. unfold Redis.call, Redis.ping. destruct (Redis.faults c) as [|[] fs]; reflexivity. Qed.

(** X10.  [initialize] returns whether the PING succeeds or not, and the
    client it was given is installed in both cases: when the PING raises,
    a warning is logged, and the later operations still go to the store.
    The cache and the objects are not touched. *)
Theorem initialize_keeps_the_client client cb :
  returns (initialize client)
    (fun _ cb' =>
       (exists c', redis_client cb' = Some c' /\ Redis.data c' = Redis.data client /\
                   Redis.faults c' = tail (Redis.faults client)) /\
       _circuits cb' = _circuits cb /\ objects cb' = objects cb /\
       level <$> logs cb' =
         (level <$> logs cb) ++
         [match Redis.faults client with
          | Redis.Lost :: _ | Redis.Refused :: _ => WARNING
          | _ => INFO
          end]) cb.
Proof.
  unfold returns, initialize, bind, modify, try_except, redis, log. simpl.
  rewrite ping_run.
  destruct (Redis.faults client) as [|[] fs]; simpl; rewrite fmap_app; eauto 10.
Qed.

End CircuitBreakerCoverage.
